(** * GitHub Actions status report: a shallow embedding of [scripts/fetch_runs.py]

    The development follows the script top-down:

    - the JSON documents the provider returns, typed by the provider's schema
      (workflow runs, jobs, listing bodies);
    - [infer_queued_reason], the pure heuristic;
    - [get_json], [fetch_runs_for_repo], [fetch_jobs_for_run]: effectful code,
      written in a small state-and-exception monad over a [world] that holds
      the clock, the number of requests served, the trace of requests and
      sleeps, and the files written;
    - [process_repo]: the batch of job fetches, the [jobs_map] dictionary
      (a [gmap] keyed by run id), the rows, the three artifacts;
    - [Gate]: the semaphore of [get_json] as a transition system over the
      suspension points of the coroutine.

    Python values that may be [None] are [option]s; a key read with
    [dict.get] is an [option] field. *)

From Stdlib Require Import ZArith List Bool Ascii String Lia.
From stdpp Require Import base option list gmap strings pretty.

Local Open Scope string_scope.
Local Open Scope list_scope.
Local Open Scope Z_scope.

(** ** Provider documents *)

(** The [actor] object of a run; only [login] is read. *)
Record actor_t := { login : option string }.

(** One element of [workflow_runs].  [id] is read with [r["id"]]; every other
    field is read with [r.get], so it may be missing or null. *)
Record run := {
  id : Z;
  name : option string;
  workflow_id : option Z;
  head_branch : option string;
  head_sha : option string;
  event : option string;
  status : option string;
  conclusion : option string;
  created_at : option string;
  run_started_at : option string;
  updated_at : option string;
  actor : option actor_t;
  html_url : option string
}.

(** One element of [jobs]; [infer_queued_reason] reads these two keys. *)
Record job := {
  job_status : option string;
  runner_name : option string
}.

(** The value of [queued_reason_inferred] when it is not [None]. *)
Inductive QueuedReasonCode :=
| no_available_runner
| runner_capacity
| unknown_or_concurrency.

Definition reason_str (c : QueuedReasonCode) : string :=
  match c with
  | no_available_runner => "no_available_runner"
  | runner_capacity => "runner_capacity"
  | unknown_or_concurrency => "unknown_or_concurrency"
  end.

(** ** Python helpers *)

(** [x == s] for a value read with [dict.get]. *)
Definition py_eq (x : option string) (s : string) : bool :=
  match x with
  | Some v => String.eqb v s
  | None => false
  end.

(** Truth value of a string-or-None: [None] and [""] are falsy. *)
Definition truthy_str (x : option string) : bool :=
  match x with
  | Some v => negb (String.eqb v "")
  | None => false
  end.

(** Truth value of a list: the empty list is falsy. *)
Definition truthy_list {A} (l : list A) : bool :=
  match l with
  | [] => false
  | _ :: _ => true
  end.

(** ** [infer_queued_reason] (fetch_runs.py, lines 58-68) *)

(** The generator body shared by [all(...)] and [any(...)]:
    [job.get("status") == "queued" and not job.get("runner_name")]. *)
Definition awaiting (j : job) : bool :=
  py_eq (job_status j) "queued" && negb (truthy_str (runner_name j)).

Definition infer_queued_reason (r : run) (jobs : list job) : option QueuedReasonCode :=
  if py_eq (status r) "queued" then
    if truthy_list jobs then
      let all_awaiting := forallb awaiting jobs in
      if all_awaiting then Some no_available_runner
      else if existsb awaiting jobs then Some runner_capacity
      else Some unknown_or_concurrency
    else Some unknown_or_concurrency
  else None.

(** ** Strings, as the script uses them *)

(** [str.lower()] on the ASCII letters.  Lower-casing a non-ASCII character
    never yields a letter of ["rate limit"] directly followed by the next
    one, so the test of [get_json] is decided by the ASCII part. *)
Definition lower_ascii (c : ascii) : ascii :=
  let n := nat_of_ascii c in
  if (65 <=? n)%nat && (n <=? 90)%nat then ascii_of_nat (n + 32) else c.

Fixpoint lower (s : string) : string :=
  match s with
  | EmptyString => EmptyString
  | String c s' => String (lower_ascii c) (lower s')
  end.

(** [needle in hay]. *)
Fixpoint contains (needle hay : string) : bool :=
  String.prefix needle hay ||
  match hay with
  | EmptyString => false
  | String _ hay' => contains needle hay'
  end.

(** [s.split("/")]: the pieces between the separators, at least one. *)
Fixpoint split_on (sep : ascii) (s : string) : list string :=
  match s with
  | EmptyString => [EmptyString]
  | String c s' =>
      if Ascii.eqb c sep then EmptyString :: split_on sep s'
      else match split_on sep s' with
           | [] => [String c EmptyString]
           | piece :: pieces => String c piece :: pieces
           end
  end.

(** ASCII decimal digits. *)
Definition is_digit (c : ascii) : bool :=
  let n := nat_of_ascii c in (48 <=? n)%nat && (n <=? 57)%nat.

Definition digit_val (c : ascii) : Z := Z.of_nat (nat_of_ascii c) - 48.

(** [range(a, b)]. *)
Definition py_range (a b : Z) : list Z :=
  map (fun i => a + Z.of_nat i) (seq 0 (Z.to_nat (b - a))).

(** ** HTTP and the world *)

(** The exceptions the script can meet. *)
Inductive exn :=
| HTTPStatusError (code : Z) (body : string)  (* [r.raise_for_status()] *)
| TransportError                              (* [client.get] itself failed *)
| JSONDecodeError                             (* [r.json()] *)
| ValueError                                  (* [int(reset)], formatting, unpacking *)
| OverflowError                               (* a delay that does not fit a float *)
| AttributeError                              (* [.get] on a non-object *)
| KeyError (key : string).                    (* missing DataFrame column *)

Inductive outcome (A : Type) :=
| Ok (a : A)
| Raised (e : exn).
Arguments Ok {A} a.
Arguments Raised {A} e.

(** The [params] dictionary of the listing request. *)
Record params_t := { per_page : Z; page : Z }.

Record request := { url : string; params : option params_t }.

(** A parsed JSON body, as far as the script looks into it: a non-object of
    either truth value, the empty object, or an object with other keys, whose
    ["workflow_runs"] and ["jobs"] keys may be missing. *)
Inductive json_body :=
| NonObject (truthy : bool)
| EmptyObject
| Object (workflow_runs : option (list run)) (jobs_key : option (list job)).

Record response := {
  status_code : Z;
  text : string;
  headers : list (string * string);
  json : option json_body       (* [None]: the body is not JSON *)
}.

(** [r.headers.get(key)]: header names compare without case; several values
    of one header are joined with a comma. *)
Definition headers_get (hs : list (string * string)) (key : string) : option string :=
  match filter (fun kv => String.eqb (lower kv.1) (lower key) = true) hs with
  | [] => None
  | kvs => Some (String.concat ", " (map snd kvs))
  end.

(** [r.raise_for_status()] succeeds on 2xx only. *)
Definition is_success (r : response) : bool :=
  (200 <=? status_code r) && (status_code r <=? 299).

(** What the process does to the outside: requests and sleeps, in order. *)
Inductive effect :=
| Requested (rq : request)
| Slept (secs : Z).

(** The provider and the configuration: [API_BASE], and the answer to the
    n-th request the process issues ([Raised] when the transport fails).
    The client of line 73 is taken as constructed, with its headers and its
    timeout; what the script prints is not part of the model.

    The interpreter's own part comes with the environment.  [py_int s] is
    [int(s)] on a header value, [None] when it raises [ValueError]: which
    strings [int] reads (white space, signs, Unicode digits, the limit on the
    number of digits) is the interpreter's matter.  [py_format_int n] tells
    whether [n] can be written in decimal for the message of line 31, which
    the same limit on digits can refuse. *)
Record env := {
  API_BASE : string;
  server : nat -> request -> outcome response;
  py_int : string -> option Z;
  py_format_int : Z -> bool
}.

(** The rows of the report (fetch_runs.py, lines 92-109). *)
Record row := {
  org_repo : string;
  workflow_run_id : Z;
  workflow_name : option string;
  row_workflow_id : option Z;
  row_head_branch : option string;
  row_head_sha : option string;
  row_event : option string;
  row_status : option string;
  row_conclusion : option string;
  row_created_at : option string;
  row_run_started_at : option string;
  row_updated_at : option string;
  row_actor : option string;
  row_html_url : option string;
  jobs : option (list job);
  queued_reason_inferred : option QueuedReasonCode
}.

(** The records of the DataFrame (lines 116-130). *)
Record tabular := {
  df_org_repo : string;
  df_workflow_run_id : Z;
  df_workflow_name : option string;
  df_head_branch : option string;
  df_event : option string;
  df_status : option string;
  df_conclusion : option string;
  df_created_at : option string;
  df_updated_at : option string;
  df_actor : option string;
  jobs_count : option nat;
  df_queued_reason_inferred : option QueuedReasonCode;
  df_html_url : option string
}.

(** One line of the summary table: status, conclusion, count. *)
Record count_row := { g_status : string; g_conclusion : string; count : nat }.

(** The three output files, with what is written into each. *)
Inductive artifact :=
| JsonFile (path : string) (rows : list row)
| CsvFile (path : string) (records : list tabular)
| HtmlFile (path : string) (generated : Z)
           (summary : list count_row) (queued : list tabular).

Definition artifact_path (a : artifact) : string :=
  match a with
  | JsonFile p _ => p
  | CsvFile p _ => p
  | HtmlFile p _ _ _ => p
  end.

(** The mutable outside: the clock in epoch seconds, how many requests the
    provider has answered, what the process did so far, the files written. *)
Record world := {
  now : Z;
  served : nat;
  trace : list effect;
  files : list artifact
}.

(** ** The monad of the script

    A computation reads and updates the world and ends with a value or an
    exception; [None] means the recursion of [get_json] was cut by the fuel. *)
Definition M (A : Type) : Type := world -> option (outcome A * world).

Definition ret {A} (a : A) : M A := fun w => Some (Ok a, w).

Definition raise {A} (e : exn) : M A := fun w => Some (Raised e, w).

Definition bind {A B} (m : M A) (k : A -> M B) : M B :=
  fun w =>
    match m w with
    | None => None
    | Some (Raised e, w') => Some (Raised e, w')
    | Some (Ok a, w') => k a w'
    end.

Notation "x <- m ;; k" := (bind m (fun x => k))
  (at level 62, m at next level, right associativity).
Notation "m ;;; k" := (bind m (fun _ => k))
  (at level 62, right associativity).

(** [None] of a Python builtin becomes the given exception. *)
Definition or_raise {A} (e : exn) (x : option A) : M A :=
  match x with
  | Some a => ret a
  | None => raise e
  end.

(** The world after one more request, after a sleep, after a file is written. *)
Definition requested (rq : request) (w : world) : world :=
  {| now := now w; served := S (served w);
     trace := trace w ++ [Requested rq]; files := files w |}.

Definition slept (secs : Z) (w : world) : world :=
  {| now := now w + Z.max 0 secs; served := served w;
     trace := trace w ++ [Slept secs]; files := files w |}.

Definition wrote (a : artifact) (w : world) : world :=
  {| now := now w; served := served w;
     trace := trace w; files := files w ++ [a] |}.

(** [await client.get(url, params=params)]. *)
Definition client_get (E : env) (rq : request) : M response :=
  fun w =>
    match server E (served w) rq with
    | Ok r => Some (Ok r, requested rq w)
    | Raised e => Some (Raised e, requested rq w)
    end.

(** [int(time.time())]. *)
Definition time_time : M Z := fun w => Some (Ok (now w), w).

(** The least integer that does not convert to a float. *)
Definition FLOAT_OVERFLOW : Z := 2 ^ 1024 - 2 ^ 970.

(** [await asyncio.sleep(secs)]: the clock moves on by [secs] (a negative
    argument does not wait).  The loop adds the delay to its clock, a float:
    a delay that does not convert raises [OverflowError] and nothing is
    awaited. *)
Definition sleep (secs : Z) : M unit :=
  fun w =>
    if secs <? FLOAT_OVERFLOW then Some (Ok tt, slept secs w)
    else Some (Raised OverflowError, w).

(** [with open(path, "w") as f: ...]. *)
Definition write_file (a : artifact) : M unit := fun w => Some (Ok tt, wrote a w).

(** ** [get_json] (lines 23-35) *)

(** Line 31: the message is formatted before it is printed, and writing
    [wait] in decimal raises [ValueError] when the interpreter refuses. *)
Definition print_wait (E : env) (wait : Z) : M unit :=
  if py_format_int E wait then ret tt else raise ValueError.

(** Lines 34-35: [r.raise_for_status(); return r.json()]. *)
Definition finish (r : response) : M json_body :=
  if is_success r then or_raise JSONDecodeError (json r)
  else raise (HTTPStatusError (status_code r) (text r)).

(** The test of line 27. *)
Definition rate_limited (r : response) : bool :=
  (status_code r =? 403) && contains "rate limit" (lower (text r)).

Fixpoint get_json (E : env) (fuel : nat) (rq : request) : M json_body :=
  match fuel with
  | O => fun _ => None
  | S fuel' =>
      r <- client_get E rq ;;
      if rate_limited r then
        let reset := headers_get (headers r) "X-RateLimit-Reset" in
        if truthy_str reset then
          reset_epoch <- or_raise ValueError (reset ≫= py_int E) ;;
          now_epoch <- time_time ;;
          let wait := reset_epoch - now_epoch + 5 in
          print_wait E wait ;;;
          sleep (Z.max 5 wait) ;;;
          get_json E fuel' rq
        else finish r
      else finish r
  end.

(** ** [fetch_runs_for_repo] (lines 37-50) *)

(** [if not j]. *)
Definition truthy_json (j : json_body) : bool :=
  match j with
  | NonObject b => b
  | EmptyObject => false
  | Object _ _ => true
  end.

(** [j.get("workflow_runs", [])]. *)
Definition get_workflow_runs (j : json_body) : M (list run) :=
  match j with
  | NonObject _ => raise AttributeError
  | EmptyObject => ret []
  | Object wr _ => ret (default [] wr)
  end.

(** [j.get("jobs", [])]. *)
Definition get_jobs (j : json_body) : M (list job) :=
  match j with
  | NonObject _ => raise AttributeError
  | EmptyObject => ret []
  | Object _ js => ret (default [] js)
  end.

Definition runs_request (E : env) (owner repo : string) (per_page page : Z) : request :=
  {| url := API_BASE E +:+ "/repos/" +:+ owner +:+ "/" +:+ repo +:+ "/actions/runs";
     params := Some {| per_page := per_page; page := page |} |}.

(** The [for] loop: [pages] is what is left of [range(1, max_pages + 1)],
    [runs] the accumulator. *)
Fixpoint pages_loop (E : env) (fuel : nat) (owner repo : string) (per_page : Z)
    (pages : list Z) (runs : list run) : M (list run) :=
  match pages with
  | [] => ret runs
  | page :: pages' =>
      j <- get_json E fuel (runs_request E owner repo per_page page) ;;
      if negb (truthy_json j) then ret runs
      else
        page_runs <- get_workflow_runs j ;;
        let runs := runs ++ page_runs in
        if Z.of_nat (length page_runs) <? per_page then ret runs
        else pages_loop E fuel owner repo per_page pages' runs
  end.

Definition fetch_runs_for_repo (E : env) (fuel : nat) (owner repo : string)
    (per_page max_pages : Z) : M (list run) :=
  pages_loop E fuel owner repo per_page (py_range 1 (max_pages + 1)) [].

(** ** [fetch_jobs_for_run] (lines 52-56) *)

Definition jobs_request (E : env) (owner repo : string) (run_id : Z) : request :=
  {| url := API_BASE E +:+ "/repos/" +:+ owner +:+ "/" +:+ repo
            +:+ "/actions/runs/" +:+ pretty run_id +:+ "/jobs";
     params := None |}.

Definition fetch_jobs_for_run (E : env) (fuel : nat) (owner repo : string)
    (run_id : Z) : M (list job) :=
  j <- get_json E fuel (jobs_request E owner repo run_id) ;;
  get_jobs j.

(** ** [process_repo] (lines 70-154) *)

(** [asyncio.gather] with [return_exceptions=True]: every task runs, an
    exception of a task becomes its result, the results keep the order of the
    tasks.  The tasks are run one after the other here, which is one of the
    schedules of the event loop. *)
Fixpoint gather {A} (tasks : list (M A)) : M (list (outcome A)) :=
  match tasks with
  | [] => ret []
  | t :: ts =>
      fun w =>
        match t w with
        | None => None
        | Some (o, w') => (os <- gather ts ;; ret (o :: os)) w'
        end
  end.

(** Line 77: [r.get("status") in ("queued", "in_progress")]. *)
Definition selected (r : run) : bool :=
  py_eq (status r) "queued" || py_eq (status r) "in_progress".

(** Lines 80-84: the dictionary comprehension; a later index overwrites an
    earlier one with the same key. *)
Definition jobs_map_step (m : gmap Z (list job)) (x : run * outcome (list job))
    : gmap Z (list job) :=
  match x.2 with
  | Ok js => <[id x.1 := js]> m
  | Raised _ => m
  end.

Definition build_jobs_map (detail_runs : list run)
    (jobs_results : list (outcome (list job))) : gmap Z (list job) :=
  foldl jobs_map_step ∅ (zip detail_runs jobs_results).

(** Lines 88-109: the body of the row loop. *)
Definition make_row (owner repo : string) (jobs_map : gmap Z (list job)) (r : run) : row :=
  let rid := id r in
  let jobs := jobs_map !! rid in
  let inferred := infer_queued_reason r (default [] jobs) in
  {| org_repo := owner +:+ "/" +:+ repo;
     workflow_run_id := rid;
     workflow_name := name r;
     row_workflow_id := workflow_id r;
     row_head_branch := head_branch r;
     row_head_sha := head_sha r;
     row_event := event r;
     row_status := status r;
     row_conclusion := conclusion r;
     row_created_at := created_at r;
     row_run_started_at := run_started_at r;
     row_updated_at := updated_at r;
     row_actor := actor r ≫= login;
     row_html_url := html_url r;
     jobs := jobs;
     queued_reason_inferred := inferred |}.

Definition build_rows (owner repo : string) (jobs_map : gmap Z (list job))
    (runs : list run) : list row :=
  map (make_row owner repo jobs_map) runs.

(** Lines 116-130: one DataFrame record per row. *)
Definition to_tabular (r : row) : tabular :=
  {| df_org_repo := org_repo r;
     df_workflow_run_id := workflow_run_id r;
     df_workflow_name := workflow_name r;
     df_head_branch := row_head_branch r;
     df_event := row_event r;
     df_status := row_status r;
     df_conclusion := row_conclusion r;
     df_created_at := row_created_at r;
     df_updated_at := row_updated_at r;
     df_actor := row_actor r;
     jobs_count := match jobs r with
                   | Some js => if truthy_list js then Some (length js) else None
                   | None => None
                   end;
     df_queued_reason_inferred := queued_reason_inferred r;
     df_html_url := row_html_url r |}.

(** *** The summary (line 135)

    [df.groupby(["status","conclusion"]).size().reset_index(name="count")]
    with pandas' defaults: [dropna=True] leaves out every record with a null
    key, [sort=True] orders the groups by key.  A DataFrame built from an
    empty list has no columns, and grouping it raises [KeyError]. *)
Definition group_key (t : tabular) : option (string * string) :=
  s ← df_status t; c ← df_conclusion t; Some (s, c).

Definition key_compare (a b : string * string) : comparison :=
  match String.compare a.1 b.1 with
  | Eq => String.compare a.2 b.2
  | c => c
  end.

Fixpoint bump (k : string * string) (groups : list count_row) : list count_row :=
  match groups with
  | [] => [ {| g_status := k.1; g_conclusion := k.2; count := 1 |} ]
  | g :: gs =>
      match key_compare k (g_status g, g_conclusion g) with
      | Eq => {| g_status := g_status g; g_conclusion := g_conclusion g;
                 count := S (count g) |} :: gs
      | Lt => {| g_status := k.1; g_conclusion := k.2; count := 1 |} :: g :: gs
      | Gt => g :: bump k gs
      end
  end.

Definition count_step (groups : list count_row) (t : tabular) : list count_row :=
  match group_key t with
  | Some k => bump k groups
  | None => groups
  end.

Definition groupby_size (df : list tabular) : outcome (list count_row) :=
  match df with
  | [] => Raised (KeyError "status")
  | _ :: _ => Ok (foldl count_step [] df)
  end.

(** The records that have a group key: neither status nor conclusion null. *)
Definition keyed (t : tabular) : Prop := is_Some (group_key t).

Global Instance keyed_dec (t : tabular) : Decision (keyed t).
Proof. unfold keyed. apply _. Defined.

(** Line 148: [df[df["status"]=="queued"].head(200)]. *)
Definition queued_head (df : list tabular) : list tabular :=
  take 200 (filter (fun t => py_eq (df_status t) "queued" = true) df).

Definition is_ok {A} (o : outcome A) : bool :=
  match o with
  | Ok _ => true
  | Raised _ => false
  end.

(** An outcome of a pure step, in the monad. *)
Definition lift {A} (o : outcome A) : M A :=
  match o with
  | Ok a => ret a
  | Raised e => raise e
  end.

Definition process_repo (E : env) (fuel : nat) (owner_repo : string)
    (per_page max_pages : Z) (out_prefix : string) : M unit :=
  match split_on "/" owner_repo with
  | [owner; repo] =>
      runs <- fetch_runs_for_repo E fuel owner repo per_page max_pages ;;
      let detail_runs := filter (fun r => selected r = true) runs in
      let tasks := map (fun r => fetch_jobs_for_run E fuel owner repo (id r)) detail_runs in
      jobs_results <- gather tasks ;;
      let jobs_map := build_jobs_map detail_runs jobs_results in
      let rows := build_rows owner repo jobs_map runs in
      let json_out := out_prefix +:+ ".json" in
      write_file (JsonFile json_out rows) ;;;
      let df := map to_tabular rows in
      let csv_out := out_prefix +:+ ".csv" in
      write_file (CsvFile csv_out df) ;;;
      counts <- lift (groupby_size df) ;;
      generated <- time_time ;;
      let html_out := out_prefix +:+ ".html" in
      write_file (HtmlFile html_out generated counts (queued_head df))
  | _ => raise ValueError
  end.

(** [main] (lines 156-166) after argument parsing: an exception that leaves
    [asyncio.run] ends the process with status 1. *)
Definition exit_status (o : outcome unit) : Z :=
  match o with
  | Ok _ => 0
  | Raised _ => 1
  end.

Definition main (E : env) (fuel : nat) (owner repo out_prefix : string)
    (per_page max_pages : Z) (w : world) : option (Z * world) :=
  let owner_repo := owner +:+ "/" +:+ repo in
  match process_repo E fuel owner_repo per_page max_pages out_prefix w with
  | Some (o, w') => Some (exit_status o, w')
  | None => None
  end.

(** ** The gate of [get_json] (lines 21 and 25-33)

    The event loop runs one coroutine at a time and switches only at an
    [await].  A call of [get_json] therefore stands at one of four places:
    before [async with semaphore] (line 25), inside the block awaiting
    [client.get] (line 26), awaiting [asyncio.sleep] (line 32, after the
    block has been left), or finished.  The recursive call of line 33 starts
    again at line 25. *)
Inductive pc :=
| Waiting
| InFlight
| Sleeping
| Returned.

Global Instance pc_eq_dec : EqDecision pc.
Proof. solve_decision. Defined.

(** [permits] is the value of the semaphore; [calls] the calls of [get_json]
    started so far, by the paginator or by the tasks of [gather]. *)
Record gate_state := { permits : nat; calls : list pc }.

(** Line 21: [asyncio.Semaphore(10)]. *)
Definition SEMAPHORE_VALUE : nat := 10.

Definition gate_init : gate_state :=
  {| permits := SEMAPHORE_VALUE; calls := [] |}.

(** What the event loop can do next. *)
Inductive action :=
| Spawn                 (* a new call of [get_json] reaches line 25 *)
| Acquire (i : nat)     (* call [i] enters the block; needs a free permit *)
| Respond (i : nat) (retry : bool)
                        (* [client.get] of call [i] completes, the block is
                           left; [retry]: lines 28-32 go to sleep *)
| Wake (i : nat).       (* the sleep of call [i] ends, line 33 *)

Definition gate_do (a : action) (s : gate_state) : option gate_state :=
  match a with
  | Spawn => Some {| permits := permits s; calls := calls s ++ [Waiting] |}
  | Acquire i =>
      match calls s !! i, permits s with
      | Some Waiting, S p => Some {| permits := p; calls := <[i := InFlight]> (calls s) |}
      | _, _ => None
      end
  | Respond i retry =>
      match calls s !! i with
      | Some InFlight =>
          Some {| permits := S (permits s);
                  calls := <[i := if retry then Sleeping else Returned]> (calls s) |}
      | _ => None
      end
  | Wake i =>
      match calls s !! i with
      | Some Sleeping => Some {| permits := permits s; calls := <[i := Waiting]> (calls s) |}
      | _ => None
      end
  end.

(** A schedule is a list of actions; it runs as long as each is enabled. *)
Fixpoint gate_run (sched : list action) (s : gate_state) : option gate_state :=
  match sched with
  | [] => Some s
  | a :: sched' =>
      match gate_do a s with
      | Some s' => gate_run sched' s'
      | None => None
      end
  end.

(** The number of provider calls in flight. *)
Definition in_flight (s : gate_state) : nat :=
  length (filter (fun c => c = InFlight) (calls s)).

Definition sleeping (s : gate_state) : nat :=
  length (filter (fun c => c = Sleeping) (calls s)).

(** ** Words of the specification *)

(** A job that is queued with no runner assigned (absent or empty name). *)
Definition queued_unassigned (j : job) : Prop :=
  job_status j = Some "queued" ∧ (runner_name j = None ∨ runner_name j = Some "").

(** [awaitingAll] and [awaitingAny] of the classifier's description. *)
Definition awaitingAll (jobs : list job) : Prop :=
  jobs ≠ [] ∧ Forall queued_unassigned jobs.

Definition awaitingAny (jobs : list job) : Prop :=
  jobs ≠ [] ∧ Exists queued_unassigned jobs.

(** The items a page returned: the list under ["workflow_runs"], nothing when
    the key or the whole body is missing. *)
Definition page_items (j : json_body) : list run :=
  match j with
  | Object (Some l) _ => l
  | _ => []
  end.

(** The early stop of the paginator: the response is empty/falsy, or it has
    strictly fewer items than [per_page]. *)
Definition page_stops (per_page : Z) (j : json_body) : Prop :=
  truthy_json j = false ∨ Z.of_nat (length (page_items j)) < per_page.

(** The world after the listing requests for the given pages, in order. *)
Definition requested_pages (E : env) (owner repo : string) (per_page : Z)
    (pages : list Z) (w : world) : world :=
  foldl (fun w p => requested (runs_request E owner repo per_page p) w) w pages.

(** What a call of [get_json] may do to the outside: ask for its own
    request again, or sleep at least five seconds. *)
Definition own_request_or_backoff (rq : request) (ev : effect) : Prop :=
  ev = Requested rq ∨ ∃ secs, ev = Slept secs ∧ 5 ≤ secs.

Definition is_sleep (ev : effect) : bool :=
  match ev with
  | Slept _ => true
  | Requested _ => false
  end.

(** The number of sleeps in a trace. *)
Definition sleeps_in (t : list effect) : nat :=
  length (filter (fun ev => is_sleep ev = true) t).

(** The job lists that the tasks of a batch returned for the run id [k], in
    task order. *)
Definition success_for (k : Z) (x : run * outcome (list job)) : option (list job) :=
  match x.2 with
  | Ok js => if decide (id x.1 = k) then Some js else None
  | Raised _ => None
  end.

Definition successes_for (k : Z) (detail_runs : list run)
    (jobs_results : list (outcome (list job))) : list (list job) :=
  omap (success_for k) (zip detail_runs jobs_results).

(** The key of a line of the summary, the count the summary shows for a
    key, and the order of the keys. *)
Definition row_key (g : count_row) : string * string := (g_status g, g_conclusion g).

Definition group_count (k : string * string) (groups : list count_row) : nat :=
  sum_list_with count (filter (fun g => row_key g = k) groups).

Definition key_lt (a b : string * string) : Prop := key_compare a b = Lt.

(** Every line comes before all the lines after it. *)
Fixpoint ascending (groups : list count_row) : Prop :=
  match groups with
  | [] => True
  | g :: gs => Forall (fun g' => key_lt (row_key g) (row_key g')) gs ∧ ascending gs
  end.

(** How often a character occurs in a string. *)
Fixpoint count_char (c : ascii) (s : string) : nat :=
  match s with
  | EmptyString => 0
  | String c' s' => ((if Ascii.eqb c' c then 1 else 0) + count_char c s')%nat
  end.

(** A provider that never sends a rate-limit answer with a reset header, so
    that no call of [get_json] sleeps. *)
Definition no_backoff (E : env) : Prop :=
  ∀ n rq r, server E n rq = Ok r →
    rate_limited r = false
    ∨ truthy_str (headers_get (headers r) "X-RateLimit-Reset") = false.

(** The world after the job requests for the given runs, in order. *)
Definition requested_jobs (E : env) (owner repo : string) (runs : list run)
    (w : world) : world :=
  foldl (fun w r => requested (jobs_request E owner repo (id r)) w) w runs.

(** ** Sample inputs *)

(** A queued run with no other field set. *)
Definition queued_run : run :=
  {| id := 1; name := None; workflow_id := None; head_branch := None;
     head_sha := None; event := None; status := Some "queued";
     conclusion := None; created_at := None; run_started_at := None;
     updated_at := None; actor := None; html_url := None |}.

(** What the runtime of the sample providers reads as an integer: a string
    of one to eighteen ASCII digits.  Python's [int] gives the same number
    on such a string, and it also refuses the sample header that this reader
    refuses. *)
Fixpoint read_digits (s : string) (acc : Z) : option Z :=
  match s with
  | EmptyString => Some acc
  | String c s' =>
      if is_digit c then read_digits s' (10 * acc + digit_val c) else None
  end.

Definition small_decimal (s : string) : option Z :=
  if (1 <=? String.length s)%nat && (String.length s <=? 18)%nat
  then read_digits s 0 else None.

(** The default limit of the interpreter: an integer of more than 4300
    digits is not written in decimal. *)
Definition default_format_int (n : Z) : bool := Z.abs n <? 10 ^ 4300.

(** A fresh process at epoch second 1000. *)
Definition w0 : world := {| now := 1000; served := 0; trace := []; files := [] |}.

(** A provider that answers the n-th request with the n-th element of a
    script, and with [fallback] once the script is used up. *)
Definition scripted (answers : list (outcome response)) (fallback : outcome response)
    : env :=
  {| API_BASE := "https://api.github.com";
     server := fun n _ => default fallback (answers !! n);
     py_int := small_decimal;
     py_format_int := default_format_int |}.

Definition rate_limit_403 (hs : list (string * string)) : response :=
  {| status_code := 403; text := "API rate limit exceeded for user";
     headers := hs; json := None |}.

Definition ok_200 (body : json_body) : response :=
  {| status_code := 200; text := "{...}"; headers := []; json := Some body |}.

Definition error_500 : response :=
  {| status_code := 500; text := "Server Error"; headers := []; json := None |}.

Definition some_request : request :=
  {| url := "https://api.github.com/repos/o/r/actions/runs/7/jobs"; params := None |}.

Definition some_request_12 : request :=
  {| url := "https://api.github.com/repos/o/r/actions/runs/12/jobs"; params := None |}.

(** A run with the given id, status and conclusion. *)
Definition a_run (i : Z) (st concl : option string) : run :=
  {| id := i; name := Some "CI"; workflow_id := Some 42; head_branch := Some "main";
     head_sha := None; event := Some "push"; status := st;
     conclusion := concl; created_at := None; run_started_at := None;
     updated_at := None; actor := Some {| login := Some "octocat" |};
     html_url := None |}.

(** A listing of two pages for [per_page = 2]: a full page, then a short one. *)
Definition page_one : list run :=
  [a_run 11 (Some "completed") (Some "success"); a_run 12 (Some "queued") None].

Definition page_two : list run := [a_run 13 (Some "in_progress") None].

Definition two_pages (p : Z) : json_body :=
  if p =? 1 then Object (Some page_one) None
  else if p =? 2 then Object (Some page_two) None
  else EmptyObject.

(** A provider that answers every request with a success whose body is the
    page asked for. *)
Definition paged (pages : Z → json_body) : env :=
  {| API_BASE := "https://api.github.com";
     server := fun _ rq => Ok (ok_200 (pages (from_option page 0 (params rq))));
     py_int := small_decimal;
     py_format_int := default_format_int |}.

(** The results of a batch over the selected runs 12 and 13: the first fetch
    fails, the second returns one queued job without runner. *)
Definition one_failure : list (outcome (list job)) :=
  [Raised (HTTPStatusError 500 "Server Error");
   Ok [ {| job_status := Some "queued"; runner_name := None |} ]].

(** A provider whose first answer is the one-page listing [page_one] and
    which fails every later request, so every job fetch fails. *)
Definition listing_then_errors : env :=
  scripted [Ok (ok_200 (Object (Some page_one) None))] (Ok error_500).

(** Twenty-one calls start; the first ten enter the gate, are answered with a
    rate-limit response and go to sleep; the next ten enter the gate. *)
Definition busy_schedule : list action :=
  replicate 21 Spawn
  ++ map Acquire (seq 0 10)
  ++ map (fun i => Respond i true) (seq 0 10)
  ++ map Acquire (seq 10 10).

(** One queued job without a runner. *)
Definition one_job : list job :=
  [ {| job_status := Some "queued"; runner_name := None |} ].

(** A provider that fails the jobs request of run 12 and answers every other
    request with one queued job. *)
Definition failing_for_12 : env :=
  {| API_BASE := "https://api.github.com";
     server := fun _ rq =>
       if String.eqb (url rq) "https://api.github.com/repos/o/r/actions/runs/12/jobs"
       then Ok error_500
       else Ok (ok_200 (Object None (Some one_job)));
     py_int := small_decimal;
     py_format_int := default_format_int |}.

(** A listing that shows run 12 twice. *)
Definition repeated_run : list run :=
  [a_run 12 (Some "queued") None; a_run 12 (Some "queued") None].

(** * Properties *)

(** ** Python helpers *)

Lemma py_eq_true (x : option string) (s : string) : py_eq x s = true ↔ x = Some s.
Proof.
  destruct x as [v|]; simpl.
  - rewrite String.eqb_eq. split; congruence.
  - split; discriminate.
Qed.

Lemma py_eq_false (x : option string) (s : string) : py_eq x s = false ↔ x ≠ Some s.
Proof.
  rewrite <- py_eq_true. destruct (py_eq x s); split; congruence.
Qed.

Lemma truthy_str_false (x : option string) :
  truthy_str x = false ↔ x = None ∨ x = Some "".
Proof.
  destruct x as [v|]; simpl.
  - rewrite negb_false_iff, String.eqb_eq. split.
    + intros ->. by right.
    + intros [?|?]; congruence.
  - split; auto.
Qed.

Lemma awaiting_true (j : job) : awaiting j = true ↔ queued_unassigned j.
Proof.
  unfold awaiting, queued_unassigned.
  rewrite andb_true_iff, py_eq_true, negb_true_iff, truthy_str_false. done.
Qed.

Lemma forallb_awaiting (jobs : list job) :
  forallb awaiting jobs = true ↔ Forall queued_unassigned jobs.
Proof.
  rewrite forallb_forall, Forall_forall.
  split; intros H j Hj; apply awaiting_true, H; by apply list_elem_of_In.
Qed.

Lemma existsb_awaiting (jobs : list job) :
  existsb awaiting jobs = true ↔ Exists queued_unassigned jobs.
Proof.
  rewrite existsb_exists, Exists_exists. split.
  - intros (j & Hj & Ha). exists j. split; [by apply list_elem_of_In | by apply awaiting_true].
  - intros (j & Hj & Ha). exists j. split; [by apply list_elem_of_In | by apply awaiting_true].
Qed.

Lemma truthy_list_true {A} (l : list A) : truthy_list l = true ↔ l ≠ [].
Proof. destruct l; simpl; split; congruence. Qed.

(** ** The classifier *)

(** C2. [infer_queued_reason] returns [None] for a run whose status is not
    "queued".  For a queued run it returns [no_available_runner] when the job
    list is non-empty and every job is queued with no runner, else
    [runner_capacity] when some job is queued with no runner, else
    [unknown_or_concurrency]; the last holds for the empty job list and for a
    single completed job that has a runner. *)
Theorem infer_queued_reason_decision (r : run) (jobs : list job) :
  (status r ≠ Some "queued" → infer_queued_reason r jobs = None) ∧
  (status r = Some "queued" →
     (awaitingAll jobs → infer_queued_reason r jobs = Some no_available_runner) ∧
     (¬ awaitingAll jobs → awaitingAny jobs →
        infer_queued_reason r jobs = Some runner_capacity) ∧
     (¬ awaitingAll jobs → ¬ awaitingAny jobs →
        infer_queued_reason r jobs = Some unknown_or_concurrency) ∧
     infer_queued_reason r [] = Some unknown_or_concurrency ∧
     infer_queued_reason r
       [ {| job_status := Some "completed"; runner_name := Some "r1" |} ]
       = Some unknown_or_concurrency).
Proof.
  unfold infer_queued_reason, awaitingAll, awaitingAny. split.
  - intros Hs. apply py_eq_false in Hs. by rewrite Hs.
  - intros Hs. apply py_eq_true in Hs. rewrite Hs.
    split; [|split; [|split; [|split]]]; try reflexivity.
    + intros [Hne Hall]. apply truthy_list_true in Hne.
      apply forallb_awaiting in Hall. by rewrite Hne, Hall.
    + intros Hnall [Hne Hany].
      destruct (forallb awaiting jobs) eqn:Hall.
      { exfalso. apply Hnall. split; [done | by apply forallb_awaiting]. }
      apply truthy_list_true in Hne. apply existsb_awaiting in Hany.
      by rewrite Hne, Hany.
    + intros Hnall Hnany.
      destruct (truthy_list jobs) eqn:Hne; [|done].
      apply truthy_list_true in Hne.
      destruct (forallb awaiting jobs) eqn:Hall.
      { exfalso. apply Hnall. split; [done | by apply forallb_awaiting]. }
      destruct (existsb awaiting jobs) eqn:Hany; [|done].
      exfalso. apply Hnany. split; [done | by apply existsb_awaiting].
Qed.

(** The decision on the two-job examples of the specification: both jobs
    queued without runner, then one of them with a runner. *)
Lemma infer_queued_reason_decision_witness :
  infer_queued_reason queued_run
    [ {| job_status := Some "queued"; runner_name := None |};
      {| job_status := Some "queued"; runner_name := None |} ]
    = Some no_available_runner ∧
  infer_queued_reason queued_run
    [ {| job_status := Some "queued"; runner_name := Some "r1" |};
      {| job_status := Some "queued"; runner_name := None |} ]
    = Some runner_capacity.
Proof.
  split.
  - apply (infer_queued_reason_decision queued_run); [reflexivity|].
    split; [discriminate|]. repeat constructor.
  - apply (infer_queued_reason_decision queued_run); [reflexivity| |].
    + intros [_ Hall]. inversion Hall as [|? ? [_ [H|H]] _]; discriminate.
    + split; [discriminate|]. apply Exists_cons_tl, Exists_cons_hd.
      split; [reflexivity | by left].
Defined.

(** ** [get_json] *)

(** One unfolding of [get_json] on an answered request. *)
Lemma get_json_step (E : env) (fuel : nat) (rq : request) (w : world) (r : response) :
  server E (served w) rq = Ok r →
  get_json E (S fuel) rq w =
    if rate_limited r then
      let reset := headers_get (headers r) "X-RateLimit-Reset" in
      if truthy_str reset then
        (reset_epoch <- or_raise ValueError (reset ≫= py_int E) ;;
         now_epoch <- time_time ;;
         print_wait E (reset_epoch - now_epoch + 5) ;;;
         sleep (Z.max 5 (reset_epoch - now_epoch + 5)) ;;;
         get_json E fuel rq) (requested rq w)
      else finish r (requested rq w)
    else finish r (requested rq w).
Proof.
  intros Hr. simpl. unfold bind at 1. unfold client_get. rewrite Hr.
  destruct (rate_limited r); [|done].
  destruct (truthy_str _); done.
Qed.

(** A failed transport is the result of the call. *)
Lemma get_json_transport (E : env) (fuel : nat) (rq : request) (w : world) (e : exn) :
  server E (served w) rq = Raised e →
  get_json E (S fuel) rq w = Some (Raised e, requested rq w).
Proof.
  intros Hr. simpl. unfold bind at 1. unfold client_get. by rewrite Hr.
Qed.

Lemma finish_error (r : response) (w : world) :
  is_success r = false →
  finish r w = Some (Raised (HTTPStatusError (status_code r) (text r)), w).
Proof. intros H. unfold finish. by rewrite H. Qed.

Lemma finish_success (r : response) (w : world) (body : json_body) :
  is_success r = true → json r = Some body →
  finish r w = Some (Ok body, w).
Proof. intros H Hb. unfold finish. by rewrite H, Hb. Qed.

Lemma rate_limited_not_success (r : response) :
  rate_limited r = true → is_success r = false.
Proof.
  unfold rate_limited, is_success. intros [H _]%andb_true_iff.
  apply Z.eqb_eq in H. by rewrite H.
Qed.

(** A rate-limit answer without a usable reset header ends the call at
    [raise_for_status]. *)
Lemma get_json_no_reset (E : env) (fuel : nat) (rq : request) (w : world) (r : response) :
  server E (served w) rq = Ok r →
  rate_limited r = true →
  truthy_str (headers_get (headers r) "X-RateLimit-Reset") = false →
  get_json E (S fuel) rq w =
    Some (Raised (HTTPStatusError 403 (text r)), requested rq w).
Proof.
  intros Hr Hrl Hh. rewrite (get_json_step _ _ _ _ _ Hr), Hrl. simpl. rewrite Hh.
  rewrite finish_error by by apply rate_limited_not_success.
  apply andb_true_iff in Hrl as [->%Z.eqb_eq _]. done.
Qed.

(** A non-success answer that is not a rate-limit answer. *)
Lemma get_json_error (E : env) (fuel : nat) (rq : request) (w : world) (r : response) :
  server E (served w) rq = Ok r →
  rate_limited r = false →
  is_success r = false →
  get_json E (S fuel) rq w =
    Some (Raised (HTTPStatusError (status_code r) (text r)), requested rq w).
Proof.
  intros Hr Hrl Hs. rewrite (get_json_step _ _ _ _ _ Hr), Hrl.
  by apply finish_error.
Qed.

(** A success answer with a JSON body. *)
Lemma get_json_success (E : env) (fuel : nat) (rq : request) (w : world)
    (r : response) (body : json_body) :
  server E (served w) rq = Ok r →
  is_success r = true →
  json r = Some body →
  get_json E (S fuel) rq w = Some (Ok body, requested rq w).
Proof.
  intros Hr Hs Hb. rewrite (get_json_step _ _ _ _ _ Hr).
  destruct (rate_limited r) eqn:Hrl.
  - apply rate_limited_not_success in Hrl. congruence.
  - by apply finish_success.
Qed.

(** A rate-limit answer with a reset header that reads as an integer, a
    wait that can be written and a delay that fits a float: sleep, then the
    same call again. *)
Lemma get_json_retry (E : env) (fuel : nat) (rq : request) (w : world)
    (r : response) (reset : string) (reset_epoch : Z) :
  server E (served w) rq = Ok r →
  rate_limited r = true →
  headers_get (headers r) "X-RateLimit-Reset" = Some reset →
  reset ≠ "" →
  py_int E reset = Some reset_epoch →
  py_format_int E (reset_epoch - now w + 5) = true →
  Z.max 5 (reset_epoch - now w + 5) < FLOAT_OVERFLOW →
  get_json E (S fuel) rq w =
    get_json E fuel rq
      (slept (Z.max 5 (reset_epoch - now w + 5)) (requested rq w)).
Proof.
  intros Hr Hrl Hh Hne Hint Hfmt Hfl.
  rewrite (get_json_step _ _ _ _ _ Hr), Hrl. simpl.
  rewrite Hh. simpl. apply String.eqb_neq in Hne. rewrite Hne. simpl.
  unfold bind at 1, or_raise. rewrite Hint. unfold ret.
  unfold bind at 1, time_time. cbn [now requested].
  unfold bind at 1, print_wait. rewrite Hfmt. unfold ret.
  unfold bind at 1, sleep. apply Z.ltb_lt in Hfl. by rewrite Hfl.
Qed.

(** C10. A 403 answer whose body says "rate limit" and which has no
    rate-limit-reset header makes [get_json] raise the HTTP status error at
    once: the call issues its one request, does not sleep and does not call
    itself again; it ends in lines 34-35 ([finish]), as for any other
    non-success status. *)
Theorem get_json_rate_limit_without_reset
    (E : env) (fuel : nat) (rq : request) (w : world) (r : response) :
  server E (served w) rq = Ok r →
  status_code r = 403 →
  contains "rate limit" (lower (text r)) = true →
  headers_get (headers r) "X-RateLimit-Reset" = None →
  ∃ w',
    get_json E (S fuel) rq w = Some (Raised (HTTPStatusError 403 (text r)), w')
    ∧ get_json E (S fuel) rq w = finish r w'
    ∧ trace w' = trace w ++ [Requested rq]
    ∧ served w' = S (served w)
    ∧ now w' = now w.
Proof.
  intros Hr Hc Ht Hh.
  assert (Hrl : rate_limited r = true).
  { unfold rate_limited. by rewrite Hc, Ht. }
  exists (requested rq w).
  rewrite (get_json_no_reset _ _ _ _ _ Hr Hrl) by by rewrite Hh.
  split; [done|]. split; [|done].
  rewrite finish_error by by apply rate_limited_not_success.
  by rewrite Hc.
Qed.

Lemma get_json_rate_limit_without_reset_witness :
  ∃ w',
    get_json (scripted [] (Ok (rate_limit_403 []))) 1 some_request w0 =
      Some (Raised (HTTPStatusError 403 "API rate limit exceeded for user"), w')
    ∧ get_json (scripted [] (Ok (rate_limit_403 []))) 1 some_request w0 =
        finish (rate_limit_403 []) w'
    ∧ trace w' = trace w0 ++ [Requested some_request]
    ∧ served w' = S (served w0)
    ∧ now w' = now w0.
Proof.
  apply (get_json_rate_limit_without_reset
           (scripted [] (Ok (rate_limit_403 []))) 0 some_request w0
           (rate_limit_403 [])); reflexivity.
Defined.

(** C6 as stated fails: a 403 rate-limit answer without the reset header is
    not followed by a sleep or a second request. *)
Lemma get_json_rate_limit_counterexample :
  rate_limited (rate_limit_403 []) = true ∧
  ∃ w', get_json (scripted [] (Ok (rate_limit_403 []))) 3 some_request w0 =
          Some (Raised (HTTPStatusError 403 "API rate limit exceeded for user"), w')
        ∧ trace w' = [Requested some_request]
        ∧ now w' = now w0.
Proof.
  split; [reflexivity|]. exists (requested some_request w0).
  split; [vm_compute; reflexivity|]. split; reflexivity.
Qed.

(** C6, amended.  When the answer is a 403 whose body says "rate limit" and
    whose rate-limit-reset header is present, non-empty and read by [int] as
    the integer [reset_epoch], and the wait [reset_epoch - now + 5] can be
    written for the message and makes a delay that fits a float, [get_json]
    sleeps [max(5, reset_epoch - now + 5)] seconds and then is the same call
    again (same url and params).  When the answer is a rate-limit 403
    without such a header, or any other non-success status, it raises the
    HTTP status error with the status and the body, after one request and no
    sleep. *)
Theorem get_json_rate_limit_backoff
    (E : env) (fuel : nat) (rq : request) (w : world) (r : response) :
  server E (served w) rq = Ok r →
  (∀ reset reset_epoch,
     rate_limited r = true →
     headers_get (headers r) "X-RateLimit-Reset" = Some reset →
     reset ≠ "" →
     py_int E reset = Some reset_epoch →
     py_format_int E (reset_epoch - now w + 5) = true →
     Z.max 5 (reset_epoch - now w + 5) < FLOAT_OVERFLOW →
     get_json E (S fuel) rq w =
       get_json E fuel rq
         (slept (Z.max 5 (reset_epoch - now w + 5)) (requested rq w)))
  ∧ (is_success r = false →
     rate_limited r = false
       ∨ truthy_str (headers_get (headers r) "X-RateLimit-Reset") = false →
     get_json E (S fuel) rq w =
       Some (Raised (HTTPStatusError (status_code r) (text r)), requested rq w)).
Proof.
  intros Hr. split.
  - intros reset reset_epoch. by apply get_json_retry.
  - intros Hs [Hrl|Hh].
    + by apply get_json_error.
    + destruct (rate_limited r) eqn:Hrl.
      * rewrite (get_json_no_reset _ _ _ _ _ Hr Hrl Hh).
        apply andb_true_iff in Hrl as [->%Z.eqb_eq _]. done.
      * by apply get_json_error.
Qed.

(** The reset lies 30 seconds ahead: the call sleeps 35 seconds, asks again
    and returns the body of the second answer.  A plain 500 raises. *)
Lemma get_json_rate_limit_backoff_witness :
  get_json
    (scripted [Ok (rate_limit_403 [("X-RateLimit-Reset", "1030")]);
               Ok (ok_200 EmptyObject)] (Ok error_500))
    2 some_request w0
  = Some (Ok EmptyObject,
          requested some_request (slept 35 (requested some_request w0)))
  ∧ get_json (scripted [] (Ok error_500)) 1 some_request w0
  = Some (Raised (HTTPStatusError 500 "Server Error"), requested some_request w0).
Proof.
  split.
  - etransitivity.
    + apply (proj1 (get_json_rate_limit_backoff
               (scripted [Ok (rate_limit_403 [("X-RateLimit-Reset", "1030")]);
                          Ok (ok_200 EmptyObject)] (Ok error_500))
               1 some_request w0
               (rate_limit_403 [("X-RateLimit-Reset", "1030")]) eq_refl)
               "1030" 1030);
        [reflexivity | reflexivity | discriminate | reflexivity
         | vm_compute; reflexivity | vm_compute; reflexivity].
    + vm_compute. reflexivity.
  - apply (proj2 (get_json_rate_limit_backoff (scripted [] (Ok error_500)) 0
             some_request w0 error_500 eq_refl)); [reflexivity | by left].
Defined.

(** ** The paginator *)

Lemma py_range_length (a b : Z) : length (py_range a b) = Z.to_nat (b - a).
Proof. unfold py_range. by rewrite length_map, length_seq. Qed.

Lemma py_range_lookup (a b : Z) (i : nat) (p : Z) :
  py_range a b !! i = Some p → p = a + Z.of_nat i.
Proof.
  unfold py_range. rewrite list_lookup_fmap.
  destruct (seq 0 (Z.to_nat (b - a)) !! i) as [j|] eqn:Hj; [|done].
  apply lookup_seq in Hj as [-> _]. simpl. congruence.
Qed.

Lemma trace_requested_pages (E : env) (owner repo : string) (per_page : Z)
    (pages : list Z) (w : world) :
  trace (requested_pages E owner repo per_page pages w) =
    trace w ++ map (fun p => Requested (runs_request E owner repo per_page p)) pages.
Proof.
  revert w. induction pages as [|p ps IH]; intros w; simpl.
  - by rewrite app_nil_r.
  - unfold requested_pages in *. simpl. rewrite IH. simpl.
    by rewrite <- app_assoc.
Qed.

Lemma served_requested_pages (E : env) (owner repo : string) (per_page : Z)
    (pages : list Z) (w : world) :
  served (requested_pages E owner repo per_page pages w) = (served w + length pages)%nat.
Proof.
  revert w. induction pages as [|p ps IH]; intros w; simpl.
  - lia.
  - unfold requested_pages in *. simpl. rewrite IH. simpl. lia.
Qed.

Section Paginator.
Context (E : env) (fuel : nat) (owner repo : string) (per_page : Z).
(** The body the provider returns for each page of the listing. *)
Context (pages : Z → json_body).
(** Every listing request is answered with a success carrying that body... *)
Hypothesis served_ok : ∀ n p, ∃ r,
  server E n (runs_request E owner repo per_page p) = Ok r
  ∧ is_success r = true ∧ json r = Some (pages p).
(** ... which is an object or a falsy value. *)
Hypothesis well_shaped : ∀ p, pages p ≠ NonObject true.

Lemma get_json_page (p : Z) (w : world) :
  get_json E (S fuel) (runs_request E owner repo per_page p) w =
    Some (Ok (pages p), requested (runs_request E owner repo per_page p) w).
Proof.
  destruct (served_ok (served w) p) as (r & Hr & Hs & Hb).
  by apply (get_json_success _ _ _ _ r).
Qed.

Lemma get_workflow_runs_page (p : Z) (w : world) :
  truthy_json (pages p) = true →
  get_workflow_runs (pages p) w = Some (Ok (page_items (pages p)), w).
Proof.
  pose proof (well_shaped p) as Hp.
  destruct (pages p) as [[]| |[l|] js]; simpl; try done.
Qed.

Lemma page_items_falsy (p : Z) :
  truthy_json (pages p) = false → page_items (pages p) = [].
Proof. destruct (pages p) as [[]| |[l|] js]; simpl; done. Qed.

(** One turn of the loop. *)
Lemma pages_loop_cons (p : Z) (ps : list Z) (acc : list run) (w : world) :
  pages_loop E (S fuel) owner repo per_page (p :: ps) acc w =
    let w1 := requested (runs_request E owner repo per_page p) w in
    let items := page_items (pages p) in
    if truthy_json (pages p) then
      if Z.of_nat (length items) <? per_page then Some (Ok (acc ++ items), w1)
      else pages_loop E (S fuel) owner repo per_page ps (acc ++ items) w1
    else Some (Ok acc, w1).
Proof.
  cbn [pages_loop]. unfold bind at 1. rewrite get_json_page.
  destruct (truthy_json (pages p)) eqn:Ht; cbn [negb]; [|done].
  unfold bind at 1. rewrite (get_workflow_runs_page _ _ Ht). cbv zeta.
  by destruct (_ <? _).
Qed.

(** The loop over any list of page numbers: it fetches a prefix [take k ps]
    of them, none of which but the last stops, and the last one stops
    unless the list is used up. *)
Lemma pages_loop_prefix (ps : list Z) (acc : list run) (w : world) :
  ∃ k : nat,
    (k ≤ length ps)%nat
    ∧ pages_loop E (S fuel) owner repo per_page ps acc w =
        Some (Ok (acc ++ concat (map (fun p => page_items (pages p)) (take k ps))),
              requested_pages E owner repo per_page (take k ps) w)
    ∧ (∀ i p, (S i < k)%nat → ps !! i = Some p → ¬ page_stops per_page (pages p))
    ∧ (k = length ps
       ∨ ∃ i p, k = S i ∧ ps !! i = Some p ∧ page_stops per_page (pages p)).
Proof.
  revert acc w. induction ps as [|p ps IH]; intros acc w.
  - exists 0%nat. simpl. rewrite app_nil_r.
    split; [lia|]. split; [done|]. split; [intros; lia | by left].
  - rewrite pages_loop_cons. cbv zeta.
    destruct (truthy_json (pages p)) eqn:Ht.
    + destruct (Z.of_nat (length (page_items (pages p))) <? per_page) eqn:Hlt.
      * exists 1%nat. simpl. rewrite app_nil_r.
        split; [lia|]. split; [done|]. split; [intros; lia|].
        right. exists 0%nat, p. split; [done|]. split; [done|].
        right. by apply Z.ltb_lt.
      * destruct (IH (acc ++ page_items (pages p))
                     (requested (runs_request E owner repo per_page p) w))
          as (k & Hk & Hrun & Hno & Hlast).
        exists (S k). simpl. rewrite Hrun, <- app_assoc.
        split; [lia|]. split; [done|]. split.
        -- intros [|i] q Hi Hq; simpl in Hq.
           ++ injection Hq as <-. intros [Hf|Hl]; [congruence|].
              apply Z.ltb_ge in Hlt. lia.
           ++ apply (Hno i q); [lia | done].
        -- destruct Hlast as [->|(i & q & -> & Hq & Hstop)]; [by left|].
           right. exists (S i), q. done.
    + exists 1%nat. simpl. rewrite (page_items_falsy _ Ht), app_nil_r.
      split; [lia|]. split; [done|]. split; [intros; lia|].
      right. exists 0%nat, p. split; [done|]. split; [done|]. by left.
Qed.

(** C3. [fetch_runs_for_repo] asks for the pages 1, 2, ... in order, at
    most [max_pages] of them, and stops at the first page [k] whose
    response is falsy or has fewer than [per_page] items; it returns the
    items of the pages 1..k in order.  With a full page 1 and a shorter
    page 2 it issues exactly the two requests and returns the items of
    both. *)
Theorem fetch_runs_for_repo_pages (max_pages : Z) (w : world) :
  (∃ k : nat,
     Z.of_nat k ≤ Z.max 0 max_pages
     ∧ fetch_runs_for_repo E (S fuel) owner repo per_page max_pages w =
         Some (Ok (concat (map (fun p => page_items (pages p))
                               (py_range 1 (Z.of_nat k + 1)))),
               requested_pages E owner repo per_page
                               (py_range 1 (Z.of_nat k + 1)) w)
     ∧ trace (requested_pages E owner repo per_page
                              (py_range 1 (Z.of_nat k + 1)) w) =
         trace w ++ map (fun p => Requested (runs_request E owner repo per_page p))
                        (py_range 1 (Z.of_nat k + 1))
     ∧ (∀ p, 1 ≤ p < Z.of_nat k → ¬ page_stops per_page (pages p))
     ∧ (Z.of_nat k = Z.max 0 max_pages
        ∨ (1 ≤ Z.of_nat k ∧ page_stops per_page (pages (Z.of_nat k)))))
  ∧ (∀ l1 l2 o1 o2,
       2 ≤ max_pages →
       pages 1 = Object (Some l1) o1 → Z.of_nat (length l1) = per_page →
       pages 2 = Object (Some l2) o2 → Z.of_nat (length l2) < per_page →
       fetch_runs_for_repo E (S fuel) owner repo per_page max_pages w =
         Some (Ok (l1 ++ l2),
               requested (runs_request E owner repo per_page 2)
                 (requested (runs_request E owner repo per_page 1) w))
       ∧ length (l1 ++ l2) = (length l1 + length l2)%nat).
Proof.
  assert (Htake : ∀ k : nat, (k ≤ Z.to_nat max_pages)%nat →
            take k (py_range 1 (max_pages + 1)) = py_range 1 (Z.of_nat k + 1)).
  { intros k Hk. unfold py_range. rewrite <- fmap_take. f_equal.
    replace (Z.to_nat (Z.of_nat k + 1 - 1)) with k by lia.
    replace (Z.to_nat (max_pages + 1 - 1)) with (Z.to_nat max_pages) by lia.
    by rewrite take_seq, Nat.min_l. }
  assert (Hgen : ∃ k : nat,
     Z.of_nat k ≤ Z.max 0 max_pages
     ∧ fetch_runs_for_repo E (S fuel) owner repo per_page max_pages w =
         Some (Ok (concat (map (fun p => page_items (pages p))
                               (py_range 1 (Z.of_nat k + 1)))),
               requested_pages E owner repo per_page
                               (py_range 1 (Z.of_nat k + 1)) w)
     ∧ (∀ p, 1 ≤ p < Z.of_nat k → ¬ page_stops per_page (pages p))
     ∧ (Z.of_nat k = Z.max 0 max_pages
        ∨ (1 ≤ Z.of_nat k ∧ page_stops per_page (pages (Z.of_nat k))))).
  { destruct (pages_loop_prefix (py_range 1 (max_pages + 1)) [] w)
      as (k & Hk & Hrun & Hno & Hlast).
    rewrite py_range_length in Hk.
    replace (Z.to_nat (max_pages + 1 - 1)) with (Z.to_nat max_pages) in Hk by lia.
    exists k. split; [lia|]. split; [|split].
    - unfold fetch_runs_for_repo. rewrite Hrun. simpl. by rewrite Htake.
    - intros p Hp.
      apply (Hno (Z.to_nat (p - 1))); [lia|].
      unfold py_range. rewrite list_lookup_fmap.
      rewrite (lookup_seq_lt 0 _ (Z.to_nat (p - 1))) by lia. simpl.
      f_equal. lia.
    - destruct Hlast as [->|(i & p & -> & Hp & Hstop)].
      + left. rewrite py_range_length. lia.
      + right. split; [lia|]. apply py_range_lookup in Hp.
        replace (Z.of_nat (S i)) with p by lia. done. }
  split.
  - destruct Hgen as (k & Hk & Hrun & Hno & Hlast). exists k.
    split; [done|]. split; [done|]. split; [|done].
    apply trace_requested_pages.
  - intros l1 l2 o1 o2 Hmax H1 Hl1 H2 Hl2.
    split; [|apply length_app].
    destruct Hgen as (k & Hk & Hrun & Hno & Hlast).
    assert (Hs1 : ¬ page_stops per_page (pages 1)).
    { rewrite H1. intros [Hf|Hl]; simpl in *; [done | lia]. }
    assert (Hs2 : page_stops per_page (pages 2)).
    { rewrite H2. right. simpl. lia. }
    assert (k = 2%nat) as ->.
    { destruct (decide (k = 0%nat)) as [->|]; [lia|].
      destruct (decide (k = 1%nat)) as [->|].
      { destruct Hlast as [?|[_ ?]]; [lia | done]. }
      destruct (decide (k = 2%nat)); [done|].
      exfalso. apply (Hno 2); [lia | done]. }
    rewrite Hrun. vm_compute py_range. simpl. rewrite H1, H2. simpl.
    by rewrite app_nil_r.
Qed.
End Paginator.

(** The two-page listing under [per_page = 2], [max_pages = 3]: two requests,
    three runs. *)
Lemma fetch_runs_for_repo_pages_witness :
  fetch_runs_for_repo (paged two_pages) 1 "o" "r" 2 3 w0 =
    Some (Ok (page_one ++ page_two),
          requested (runs_request (paged two_pages) "o" "r" 2 2)
            (requested (runs_request (paged two_pages) "o" "r" 2 1) w0))
  ∧ length (page_one ++ page_two) = (length page_one + length page_two)%nat.
Proof.
  apply (proj2 (fetch_runs_for_repo_pages (paged two_pages) 0 "o" "r" 2 two_pages
                  (fun n p => ex_intro _ (ok_200 (two_pages p))
                                (conj eq_refl (conj eq_refl eq_refl)))
                  (fun p => ltac:(unfold two_pages; repeat case_match; discriminate))
                  3 w0)
               page_one page_two None None);
    [lia | reflexivity | reflexivity | reflexivity | simpl; lia].
Defined.

(** ** The jobs dictionary *)

Lemma jobs_map_step_other (m : gmap Z (list job)) (x : run * outcome (list job)) (k : Z) :
  id x.1 ≠ k → jobs_map_step m x !! k = m !! k.
Proof.
  intros Hk. unfold jobs_map_step. destruct (x.2); [|done].
  by rewrite lookup_insert_ne.
Qed.

(** Keys that no task carries are left as they were. *)
Lemma foldl_jobs_map_other (l : list (run * outcome (list job)))
    (m : gmap Z (list job)) (k : Z) :
  (∀ x, x ∈ l → id x.1 ≠ k) →
  foldl jobs_map_step m l !! k = m !! k.
Proof.
  revert m. induction l as [|x l IH]; intros m Hl; simpl; [done|].
  rewrite IH.
  - apply jobs_map_step_other, Hl. by left.
  - intros y Hy. apply Hl. by right.
Qed.

(** With distinct keys, the entry of a task is decided by its own result. *)
Lemma foldl_jobs_map_lookup (l : list (run * outcome (list job)))
    (m : gmap Z (list job)) (i : nat) (r : run) (o : outcome (list job)) :
  NoDup (map (fun x => id x.1) l) →
  l !! i = Some (r, o) →
  foldl jobs_map_step m l !! id r =
    match o with
    | Ok js => Some js
    | Raised _ => m !! id r
    end.
Proof.
  revert m i. induction l as [|x l IH]; intros m i Hnd Hi; [done|].
  simpl in Hnd. apply NoDup_cons in Hnd as [Hx Hnd].
  destruct i as [|i]; simpl in *.
  - injection Hi as ->. rewrite foldl_jobs_map_other.
    + unfold jobs_map_step. simpl. destruct o; [|done]. by rewrite lookup_insert_eq.
    + intros y Hy Heq. apply Hx. simpl. rewrite <- Heq.
      apply list_elem_of_fmap. by exists y.
  - rewrite (IH _ i) by done. destruct o; [done|].
    apply jobs_map_step_other. intros Heq. apply Hx.
    replace (id x.1) with (id (r, Raised e : outcome (list job)).1) by done.
    apply list_elem_of_fmap. exists (r, Raised e). split; [done|].
    by apply list_elem_of_lookup_2 with i.
Qed.

(** An entry comes from a task that succeeded with that value. *)
Lemma foldl_jobs_map_origin (l : list (run * outcome (list job)))
    (m : gmap Z (list job)) (k : Z) (js : list job) :
  foldl jobs_map_step m l !! k = Some js →
  m !! k = Some js ∨ ∃ i r, l !! i = Some (r, Ok js) ∧ id r = k.
Proof.
  revert m. induction l as [|[r o] l IH]; intros m H; simpl in H; [by left|].
  apply IH in H as [H|(i & r' & Hi & Hk)].
  - unfold jobs_map_step in H. simpl in H. destruct o as [js'|e]; [|by left].
    destruct (decide (id r = k)) as [<-|Hne].
    + rewrite lookup_insert_eq in H. injection H as ->.
      right. by exists 0%nat, r.
    + rewrite lookup_insert_ne in H by done. by left.
  - right. by exists (S i), r'.
Qed.

Lemma zip_lookup_Some {A B} (l : list A) (k : list B) (i : nat) (a : A) (b : B) :
  l !! i = Some a → k !! i = Some b → zip l k !! i = Some (a, b).
Proof.
  revert k i. induction l as [|x l IH]; intros [|y k] [|i]; simpl; try done.
  - congruence.
  - apply IH.
Qed.

Lemma zip_lookup_inv {A B} (l : list A) (k : list B) (i : nat) (a : A) (b : B) :
  zip l k !! i = Some (a, b) → l !! i = Some a ∧ k !! i = Some b.
Proof.
  revert k i. induction l as [|x l IH]; intros [|y k] [|i]; simpl; try done.
  - intros [= -> ->]. done.
  - apply IH.
Qed.

Lemma NoDup_zip_ids (drs : list run) (res : list (outcome (list job))) :
  NoDup (map id drs) →
  NoDup (map (fun x : run * outcome (list job) => id x.1) (zip drs res)).
Proof.
  revert res. induction drs as [|r drs IH]; intros [|o res] Hnd; simpl;
    try apply NoDup_nil_2.
  simpl in Hnd. apply NoDup_cons in Hnd as [Hr Hnd].
  apply NoDup_cons. split; [|by apply IH].
  intros Hin. apply Hr.
  apply list_elem_of_fmap in Hin as ([r' o'] & Heq & Hin). simpl in Heq.
  apply list_elem_of_lookup in Hin as [i Hi].
  apply zip_lookup_inv in Hi as [Hi _].
  rewrite Heq. apply list_elem_of_fmap. exists r'. split; [done|].
  by apply list_elem_of_lookup_2 with i.
Qed.

Lemma NoDup_ids_filter (runs : list run) :
  NoDup (map id runs) → NoDup (map id (filter (fun r => selected r = true) runs)).
Proof.
  induction runs as [|r runs IH]; simpl; intros Hnd; [done|].
  apply NoDup_cons in Hnd as [Hr Hnd].
  rewrite filter_cons. destruct (decide (selected r = true)); [|by apply IH].
  simpl. apply NoDup_cons. split; [|by apply IH].
  intros Hin. apply Hr.
  apply list_elem_of_fmap in Hin as (r' & Heq & Hin).
  apply list_elem_of_filter in Hin as [_ Hin].
  apply list_elem_of_fmap. by exists r'.
Qed.

Lemma NoDup_ids_inj (runs : list run) (i j : nat) (r r' : run) :
  NoDup (map id runs) →
  runs !! i = Some r → runs !! j = Some r' → id r = id r' → i = j.
Proof.
  intros Hnd Hi Hj Heq.
  apply (NoDup_lookup (map id runs) i j (id r)); [done| |].
  - by rewrite list_lookup_fmap, Hi.
  - by rewrite list_lookup_fmap, Hj, Heq.
Qed.

(** The entry of the i-th selected run, when ids are distinct. *)
Lemma build_jobs_map_lookup (drs : list run) (res : list (outcome (list job)))
    (i : nat) (r : run) (o : outcome (list job)) :
  NoDup (map id drs) →
  drs !! i = Some r → res !! i = Some o →
  build_jobs_map drs res !! id r =
    match o with
    | Ok js => Some js
    | Raised _ => None
    end.
Proof.
  intros Hnd Hr Ho. unfold build_jobs_map.
  rewrite (foldl_jobs_map_lookup _ _ i r o).
  - by destruct o.
  - by apply NoDup_zip_ids.
  - by apply zip_lookup_Some.
Qed.

(** A key that belongs to no selected run has no entry. *)
Lemma build_jobs_map_absent (drs : list run) (res : list (outcome (list job))) (k : Z) :
  (∀ r, r ∈ drs → id r ≠ k) →
  build_jobs_map drs res !! k = None.
Proof.
  intros H. unfold build_jobs_map. rewrite foldl_jobs_map_other; [done|].
  intros [r o] Hin. simpl. apply H.
  apply list_elem_of_lookup in Hin as [i Hi].
  apply zip_lookup_inv in Hi as [Hi _]. by apply list_elem_of_lookup_2 with i.
Qed.

Lemma build_jobs_map_origin (drs : list run) (res : list (outcome (list job)))
    (k : Z) (js : list job) :
  build_jobs_map drs res !! k = Some js →
  ∃ i r, drs !! i = Some r ∧ id r = k ∧ res !! i = Some (Ok js).
Proof.
  intros H. apply foldl_jobs_map_origin in H as [H|(i & r & Hi & Hk)]; [done|].
  apply zip_lookup_inv in Hi as [Hr Ho]. by exists i, r.
Qed.

Lemma foldl_jobs_map_size (drs : list run) (res : list (outcome (list job)))
    (m : gmap Z (list job)) :
  NoDup (map id drs) →
  length res = length drs →
  (∀ r, r ∈ drs → m !! id r = None) →
  size (foldl jobs_map_step m (zip drs res)) =
    (size m + length (filter (fun o => is_ok o = true) res))%nat.
Proof.
  revert res m. induction drs as [|r drs IH]; intros [|o res] m Hnd Hlen Hfresh;
    simpl in *; try done; try lia.
  apply NoDup_cons in Hnd as [Hr Hnd].
  rewrite IH; [|done|lia|].
  - unfold jobs_map_step. simpl. rewrite filter_cons.
    destruct o as [js|e]; simpl.
    + rewrite map_size_insert_None by (apply Hfresh; by left).
      destruct (decide (true = true)); [simpl; lia | done].
    + destruct (decide (false = true)); [done | lia].
  - intros r' Hr'. rewrite jobs_map_step_other.
    + apply Hfresh. by right.
    + simpl. intros Heq. apply Hr. rewrite Heq.
      apply list_elem_of_fmap. by exists r'.
Qed.

(** With a repeated id the later result is the one kept, as in a Python
    dictionary comprehension; the theorems on the batch take distinct ids. *)
Example build_jobs_map_repeated_id :
  build_jobs_map [a_run 12 (Some "queued") None; a_run 12 (Some "queued") None]
                 [Ok []; Ok [ {| job_status := Some "queued"; runner_name := None |} ]]
    !! 12
  = Some [ {| job_status := Some "queued"; runner_name := None |} ].
Proof. vm_compute. reflexivity. Qed.

(** ** Assembly *)

Lemma infer_queued_reason_no_jobs (r : run) :
  infer_queued_reason r [] =
    if py_eq (status r) "queued" then Some unknown_or_concurrency else None.
Proof. reflexivity. Qed.

(** C1. Whatever the runs and whatever the results of the batch of job
    fetches, the rows are one per run, in the order of the runs; the row of a
    run without an entry in the jobs dictionary has no jobs, and its reason
    is the one of an empty job list, which depends on the status alone. *)
Theorem build_rows_one_per_run (owner repo : string) (runs : list run)
    (jobs_results : list (outcome (list job))) :
  let jobs_map :=
    build_jobs_map (filter (fun r => selected r = true) runs) jobs_results in
  let rows := build_rows owner repo jobs_map runs in
  length rows = length runs
  ∧ map workflow_run_id rows = map id runs
  ∧ (∀ i r, runs !! i = Some r →
       rows !! i = Some (make_row owner repo jobs_map r)
       ∧ jobs (make_row owner repo jobs_map r) = jobs_map !! id r
       ∧ row_status (make_row owner repo jobs_map r) = status r)
  ∧ (∀ r, jobs_map !! id r = None →
       jobs (make_row owner repo jobs_map r) = None
       ∧ queued_reason_inferred (make_row owner repo jobs_map r) =
           (if py_eq (status r) "queued" then Some unknown_or_concurrency else None)).
Proof.
  intros jobs_map rows. subst rows. unfold build_rows.
  split; [by rewrite length_map|]. split.
  - rewrite map_map. done.
  - split.
    + intros i r Hi. rewrite list_lookup_fmap, Hi. done.
    + intros r Hnone. unfold make_row. simpl. rewrite Hnone. done.
Qed.

(** ** Enrichment *)

(** The dictionary and the rows for any list of results as long as the
    batch, over runs with distinct ids. *)
Lemma build_jobs_map_distinct_ids (owner repo : string) (runs : list run)
    (jobs_results : list (outcome (list job))) :
  let detail_runs := filter (fun r => selected r = true) runs in
  let jobs_map := build_jobs_map detail_runs jobs_results in
  NoDup (map id runs) →
  length jobs_results = length detail_runs →
  (∀ i r js, detail_runs !! i = Some r → jobs_results !! i = Some (Ok js) →
     jobs_map !! id r = Some js)
  ∧ (∀ i r e, detail_runs !! i = Some r → jobs_results !! i = Some (Raised e) →
       jobs_map !! id r = None
       ∧ jobs (make_row owner repo jobs_map r) = None
       ∧ queued_reason_inferred (make_row owner repo jobs_map r) =
           infer_queued_reason r []
       ∧ (status r = Some "queued" →
          queued_reason_inferred (make_row owner repo jobs_map r) =
            Some unknown_or_concurrency))
  ∧ (∀ r, r ∈ runs → selected r = false → jobs_map !! id r = None)
  ∧ (∀ k js, jobs_map !! k = Some js →
       ∃ i r, detail_runs !! i = Some r ∧ id r = k
              ∧ jobs_results !! i = Some (Ok js))
  ∧ size jobs_map = length (filter (fun o => is_ok o = true) jobs_results)
  ∧ (∀ i e r', r' ∈ runs → detail_runs !! i ≠ Some r' →
       build_jobs_map detail_runs (<[i := Raised e]> jobs_results) !! id r' =
         jobs_map !! id r')
  ∧ length (build_rows owner repo jobs_map runs) = length runs.
Proof.
  intros detail_runs jobs_map Hnd Hlen.
  assert (Hnd' : NoDup (map id detail_runs)) by by apply NoDup_ids_filter.
  assert (Hunsel : ∀ res r, r ∈ runs → selected r = false →
            build_jobs_map detail_runs res !! id r = None).
  { intros res r Hr Hsel. apply build_jobs_map_absent. intros r' Hr' Heq.
    apply list_elem_of_filter in Hr' as [Hsel' Hr'].
    apply list_elem_of_lookup in Hr as [i Hi].
    apply list_elem_of_lookup in Hr' as [j Hj].
    assert (j = i) as -> by (by apply (NoDup_ids_inj runs j i r' r)).
    congruence. }
  split; [|split; [|split; [|split; [|split; [|split]]]]].
  - intros i r js Hr Ho. unfold jobs_map.
    by rewrite (build_jobs_map_lookup _ _ i r (Ok js)).
  - intros i r e Hr Ho.
    assert (Hnone : jobs_map !! id r = None).
    { unfold jobs_map. by rewrite (build_jobs_map_lookup _ _ i r (Raised e)). }
    split; [done|]. unfold make_row. simpl. rewrite Hnone. simpl.
    split; [done|]. split; [done|].
    intros Hq. unfold infer_queued_reason. apply py_eq_true in Hq. by rewrite Hq.
  - intros r. apply Hunsel.
  - intros k js. apply build_jobs_map_origin.
  - unfold jobs_map, build_jobs_map.
    rewrite foldl_jobs_map_size by done. by rewrite map_size_empty.
  - intros i e r' Hr' Hne.
    destruct (selected r') eqn:Hsel.
    + assert (Hin : r' ∈ detail_runs) by by apply list_elem_of_filter.
      apply list_elem_of_lookup in Hin as [j Hj].
      assert (Hij : i ≠ j) by (intros ->; done).
      destruct (lookup_lt_is_Some_2 jobs_results j) as [o Ho].
      { rewrite Hlen. by apply lookup_lt_Some with r'. }
      rewrite (build_jobs_map_lookup _ _ j r' o); [|done|done|].
      * unfold jobs_map. by rewrite (build_jobs_map_lookup _ _ j r' o).
      * by rewrite list_lookup_insert_ne.
    + unfold jobs_map. by rewrite !Hunsel.
  - unfold build_rows. by rewrite length_map.
Qed.

(** ** The tabular records *)

(** C8 as stated fails: a fetch that succeeds with an empty job list puts
    [[]] into the row, and the job count of that row is null, not 0. *)
Lemma jobs_count_empty_list_counterexample :
  jobs (make_row "o" "r"
          (build_jobs_map [a_run 12 (Some "queued") None] [Ok []])
          (a_run 12 (Some "queued") None)) = Some []
  ∧ jobs_count
      (to_tabular
         (make_row "o" "r"
            (build_jobs_map [a_run 12 (Some "queued") None] [Ok []])
            (a_run 12 (Some "queued") None))) = None.
Proof. split; vm_compute; reflexivity. Qed.

(** C8, amended.  The job count of a tabular record is the number of jobs of
    the row when the job list is present and non-empty; it is null exactly
    when the jobs are absent or the list is empty. *)
Theorem jobs_count_of_row (rw : row) :
  (∀ js, jobs rw = Some js → js ≠ [] →
     jobs_count (to_tabular rw) = Some (length js))
  ∧ (jobs_count (to_tabular rw) = None ↔ jobs rw = None ∨ jobs rw = Some []).
Proof.
  unfold to_tabular. simpl. split.
  - intros js -> Hne. by destruct js.
  - destruct (jobs rw) as [[|j js]|]; simpl; split; try done; auto.
    + intros [?|?]; done.
Qed.

Lemma jobs_count_of_row_witness :
  jobs_count
    (to_tabular
       (make_row "o" "r"
          (build_jobs_map (filter (fun r => selected r = true) (page_one ++ page_two))
                          one_failure)
          (a_run 13 (Some "in_progress") None))) = Some 1%nat.
Proof.
  apply (proj1 (jobs_count_of_row _)
           [ {| job_status := Some "queued"; runner_name := None |} ]);
    [vm_compute; reflexivity | discriminate].
Defined.

(** ** The summary *)

Lemma bump_total (k : string * string) (groups : list count_row) :
  sum_list_with count (bump k groups) = S (sum_list_with count groups).
Proof.
  induction groups as [|g gs IH]; simpl; [done|].
  destruct (key_compare k (g_status g, g_conclusion g)); simpl; [done|done|].
  rewrite IH. lia.
Qed.

Lemma foldl_count_step_total (df : list tabular) (groups : list count_row) :
  sum_list_with count (foldl count_step groups df) =
    (sum_list_with count groups + length (filter keyed df))%nat.
Proof.
  revert groups. induction df as [|t df IH]; intros groups; simpl; [lia|].
  rewrite IH, filter_cons. unfold count_step.
  destruct (decide (keyed t)) as [[k Hk]|Hn]; simpl.
  - rewrite Hk, bump_total. lia.
  - destruct (group_key t) as [k|] eqn:Hk; [|done].
    exfalso. apply Hn. unfold keyed. by rewrite Hk.
Qed.

(** What the summary does count: the records whose status and conclusion are
    both non-null. *)
Lemma groupby_size_total (df : list tabular) (counts : list count_row) :
  groupby_size df = Ok counts →
  sum_list_with count counts = length (filter keyed df).
Proof.
  destruct df as [|t df]; [done|]. intros [= <-].
  apply (foldl_count_step_total (t :: df) []).
Qed.

(** C4 at a failing input: of the two rows of the first sample page, the
    queued one has a null conclusion and is left out of the summary, whose
    counts sum to 1. *)
Theorem summary_counts_miss_null_conclusion :
  length (build_rows "o" "r" ∅ page_one) = 2%nat
  ∧ groupby_size (map to_tabular (build_rows "o" "r" ∅ page_one)) =
      Ok [ {| g_status := "completed"; g_conclusion := "success"; count := 1 |} ]
  ∧ sum_list_with count
      [ {| g_status := "completed"; g_conclusion := "success"; count := 1 |} ]
    ≠ length (build_rows "o" "r" ∅ page_one).
Proof. split; [reflexivity|]. split; [vm_compute; reflexivity | simpl; lia]. Qed.

(** ** The process *)

(** Fetching never touches the files. *)
Lemma get_json_files (E : env) (fuel : nat) (rq : request) (w w' : world)
    (o : outcome json_body) :
  get_json E fuel rq w = Some (o, w') → files w' = files w.
Proof.
  revert w. induction fuel as [|fuel IH]; intros w; [done|].
  destruct (server E (served w) rq) as [r|e] eqn:Hr.
  - rewrite (get_json_step _ _ _ _ _ Hr).
    assert (Hfin : finish r (requested rq w) = Some (o, w') → files w' = files w).
    { unfold finish, or_raise, ret, raise.
      destruct (is_success r); [destruct (json r)|]; by intros [= <- <-]. }
    destruct (rate_limited r); [|done]. cbv zeta.
    destruct (truthy_str _); [|done].
    unfold bind at 1, or_raise.
    destruct (headers_get (headers r) "X-RateLimit-Reset" ≫= py_int E) as [z|].
    + unfold ret. unfold bind at 1, time_time. unfold bind at 1, print_wait.
      destruct (py_format_int E _); [|unfold raise; by intros [= <- <-]].
      unfold ret. unfold bind at 1, sleep.
      destruct (_ <? FLOAT_OVERFLOW); [|by intros [= <- <-]].
      intros H%IH. by rewrite H.
    + unfold raise. by intros [= <- <-].
  - rewrite (get_json_transport _ _ _ _ _ Hr). by intros [= <- <-].
Qed.

Lemma pages_loop_files (E : env) (fuel : nat) (owner repo : string) (per_page : Z)
    (pages : list Z) (acc : list run) (w w' : world) (o : outcome (list run)) :
  pages_loop E fuel owner repo per_page pages acc w = Some (o, w') →
  files w' = files w.
Proof.
  revert acc w. induction pages as [|p ps IH]; intros acc w; simpl.
  - unfold ret. intros ?. congruence.
  - unfold bind at 1.
    destruct (get_json E fuel _ w) as [[[j|e] w1]|] eqn:Hj; [| |done].
    + apply get_json_files in Hj.
      destruct (truthy_json j); simpl; [|unfold ret; intros ?; congruence].
      unfold bind at 1.
      destruct j as [b| |wr js]; simpl; unfold ret, raise;
        [intros ?; congruence| |].
      * destruct (_ <? per_page); [intros ?; congruence|].
        intros H%IH. congruence.
      * destruct (_ <? per_page); [intros ?; congruence|].
        intros H%IH. congruence.
    + apply get_json_files in Hj. intros ?. congruence.
Qed.

Lemma fetch_runs_for_repo_files (E : env) (fuel : nat) (owner repo : string)
    (per_page max_pages : Z) (w w' : world) (o : outcome (list run)) :
  fetch_runs_for_repo E fuel owner repo per_page max_pages w = Some (o, w') →
  files w' = files w.
Proof. apply pages_loop_files. Qed.

Lemma fetch_jobs_for_run_files (E : env) (fuel : nat) (owner repo : string)
    (run_id : Z) (w w' : world) (o : outcome (list job)) :
  fetch_jobs_for_run E fuel owner repo run_id w = Some (o, w') →
  files w' = files w.
Proof.
  unfold fetch_jobs_for_run, bind.
  destruct (get_json E fuel _ w) as [[[j|e] w1]|] eqn:Hj; [| |done].
  - apply get_json_files in Hj.
    destruct j as [b| |wr js]; simpl; unfold raise, ret; intros ?; congruence.
  - apply get_json_files in Hj. intros ?. congruence.
Qed.

(** The batch returns as soon as each of its tasks does, with one result per
    task, and it never raises. *)
Lemma gather_returns {A} (tasks : list (M A)) (w : world) :
  (∀ t w', t ∈ tasks → is_Some (t w')) →
  ∃ res w', gather tasks w = Some (Ok res, w') ∧ length res = length tasks.
Proof.
  revert w. induction tasks as [|t ts IH]; intros w Hall; simpl.
  - by exists [], w.
  - destruct (Hall t w) as [[o w1] Ht]; [by left|]. rewrite Ht.
    destruct (IH w1) as (res & w2 & Hg & Hlen).
    { intros t' w' Ht'. apply Hall. by right. }
    exists (o :: res), w2. unfold bind. rewrite Hg. simpl. by rewrite Hlen.
Qed.

Lemma gather_jobs_files (E : env) (fuel : nat) (owner repo : string)
    (drs : list run) (w w' : world) (o : outcome (list (outcome (list job)))) :
  gather (map (fun r => fetch_jobs_for_run E fuel owner repo (id r)) drs) w
    = Some (o, w') →
  files w' = files w.
Proof.
  revert w o w'. induction drs as [|r drs IH]; intros w o w'; simpl.
  - unfold ret. intros ?. congruence.
  - destruct (fetch_jobs_for_run E fuel owner repo (id r) w) as [[o1 w1]|] eqn:H1;
      [|done].
    apply fetch_jobs_for_run_files in H1. unfold bind.
    destruct (gather _ w1) as [[[res|e] w2]|] eqn:Hg; [| |done].
    + apply IH in Hg. unfold ret. intros ?. congruence.
    + apply IH in Hg. intros ?. congruence.
Qed.

(** [process_repo] once the listing and the batch have returned: the rows
    are built from the runs and the results; with no runs at all the
    DataFrame has no columns and the summary raises after the JSON and CSV
    files are written, otherwise the three files are written. *)
Lemma process_repo_after_batch (E : env) (fuel : nat) (owner repo owner_repo : string)
    (per_page max_pages : Z) (out_prefix : string) (w w1 w2 : world)
    (runs : list run) (jobs_results : list (outcome (list job))) :
  split_on "/" owner_repo = [owner; repo] →
  fetch_runs_for_repo E fuel owner repo per_page max_pages w = Some (Ok runs, w1) →
  gather (map (fun r => fetch_jobs_for_run E fuel owner repo (id r))
              (filter (fun r => selected r = true) runs)) w1
    = Some (Ok jobs_results, w2) →
  let rows := build_rows owner repo
                (build_jobs_map (filter (fun r => selected r = true) runs) jobs_results)
                runs in
  let df := map to_tabular rows in
  let w3 := wrote (CsvFile (out_prefix +:+ ".csv") df)
              (wrote (JsonFile (out_prefix +:+ ".json") rows) w2) in
  process_repo E fuel owner_repo per_page max_pages out_prefix w =
    match groupby_size df with
    | Ok counts =>
        Some (Ok tt, wrote (HtmlFile (out_prefix +:+ ".html") (now w3) counts
                                     (queued_head df)) w3)
    | Raised e => Some (Raised e, w3)
    end.
Proof.
  intros Hsplit Hruns Hgather rows df w3.
  unfold process_repo. rewrite Hsplit.
  unfold bind at 1. rewrite Hruns.
  unfold bind at 1. rewrite Hgather.
  unfold bind at 1, write_file at 1. unfold bind at 1, write_file at 1.
  fold rows. fold df. fold w3.
  unfold bind at 1, lift. destruct (groupby_size df); done.
Qed.

(** Each result of the batch is what the task at its place returned or
    raised, in the world the tasks before it left. *)
Lemma gather_results {A} (tasks : list (M A)) (w w' : world)
    (res : list (outcome A)) :
  gather tasks w = Some (Ok res, w') →
  Forall2 (fun t o => ∃ wi wi', t wi = Some (o, wi')) tasks res.
Proof.
  revert w w' res. induction tasks as [|t ts IH]; intros w w' res; simpl.
  - unfold ret. intros [= <- _]. constructor.
  - destruct (t w) as [[o1 w1]|] eqn:Ht; [|done]. unfold bind.
    destruct (gather ts w1) as [[[res1|e] w2]|] eqn:Hg; [| |done].
    + unfold ret. intros [= <- _].
      constructor; [by exists w, w1 | by apply (IH w1 w2)].
    + done.
Qed.

(** C5 as stated fails when the listing repeats a run: the second fetch for
    run 12 fails, yet the dictionary has an entry under its id and its row
    shows the jobs of the first fetch. *)
Lemma enrichment_repeated_run_counterexample :
  gather (map (fun r => fetch_jobs_for_run
                          (scripted [Ok (ok_200 (Object None (Some one_job)))]
                                    (Ok error_500)) 1 "o" "r" (id r))
              (filter (fun r => selected r = true) repeated_run)) w0
  = Some (Ok [Ok one_job; Raised (HTTPStatusError 500 "Server Error")],
          requested some_request_12 (requested some_request_12 w0))
  ∧ build_jobs_map (filter (fun r => selected r = true) repeated_run)
                   [Ok one_job; Raised (HTTPStatusError 500 "Server Error")] !! 12
    = Some one_job
  ∧ jobs (make_row "o" "r"
            (build_jobs_map (filter (fun r => selected r = true) repeated_run)
                            [Ok one_job; Raised (HTTPStatusError 500 "Server Error")])
            (a_run 12 (Some "queued") None))
    = Some one_job.
Proof. split; [|split]; vm_compute; reflexivity. Qed.

(** C5, amended.  In a batch over runs with pairwise distinct ids, where
    every fetch returns or raises, [gather] runs every task and returns one
    result per selected run, each the outcome of that run's own fetch: a
    failure does not abort the batch.  The dictionary holds the result of
    every selected run whose fetch succeeded and nothing else: no entry for
    a failed fetch, none for a run that was not selected, as many entries as
    successes.  Turning the result of one run into a failure leaves the
    entry of every other run as it was.  The row count does not depend on
    the results, and the row of a failed run has no jobs and the reason of
    an empty job list. *)
Theorem enrichment_failure_is_local (E : env) (fuel : nat) (owner repo : string)
    (runs : list run) (w : world) :
  let detail_runs := filter (fun r => selected r = true) runs in
  NoDup (map id runs) →
  (∀ r w', r ∈ detail_runs →
     is_Some (fetch_jobs_for_run E fuel owner repo (id r) w')) →
  ∃ jobs_results w',
    let jobs_map := build_jobs_map detail_runs jobs_results in
    gather (map (fun r => fetch_jobs_for_run E fuel owner repo (id r)) detail_runs) w
      = Some (Ok jobs_results, w')
    ∧ length jobs_results = length detail_runs
    ∧ (∀ i r, detail_runs !! i = Some r →
         ∃ wi wi' o,
           fetch_jobs_for_run E fuel owner repo (id r) wi = Some (o, wi')
           ∧ jobs_results !! i = Some o)
    ∧ (∀ i r js, detail_runs !! i = Some r → jobs_results !! i = Some (Ok js) →
         jobs_map !! id r = Some js)
    ∧ (∀ i r e, detail_runs !! i = Some r → jobs_results !! i = Some (Raised e) →
         jobs_map !! id r = None
         ∧ jobs (make_row owner repo jobs_map r) = None
         ∧ queued_reason_inferred (make_row owner repo jobs_map r) =
             infer_queued_reason r []
         ∧ (status r = Some "queued" →
            queued_reason_inferred (make_row owner repo jobs_map r) =
              Some unknown_or_concurrency))
    ∧ (∀ r, r ∈ runs → selected r = false → jobs_map !! id r = None)
    ∧ (∀ k js, jobs_map !! k = Some js →
         ∃ i r, detail_runs !! i = Some r ∧ id r = k
                ∧ jobs_results !! i = Some (Ok js))
    ∧ size jobs_map = length (filter (fun o => is_ok o = true) jobs_results)
    ∧ (∀ i e r', r' ∈ runs → detail_runs !! i ≠ Some r' →
         build_jobs_map detail_runs (<[i := Raised e]> jobs_results) !! id r' =
           jobs_map !! id r')
    ∧ length (build_rows owner repo jobs_map runs) = length runs.
Proof.
  intros detail_runs Hnd Hret.
  destruct (gather_returns
              (map (fun r => fetch_jobs_for_run E fuel owner repo (id r)) detail_runs) w)
    as (res & w' & Hg & Hlen).
  { intros t w1 Ht. apply list_elem_of_fmap in Ht as (r & -> & Hr). by apply Hret. }
  rewrite length_map in Hlen.
  exists res, w'. cbv zeta. split; [done|]. split; [done|]. split.
  - intros i r Hi. apply gather_results in Hg.
    destruct (lookup_lt_is_Some_2 res i) as [o Ho].
    { rewrite Hlen. by apply lookup_lt_Some with r. }
    assert (Ht : map (fun r => fetch_jobs_for_run E fuel owner repo (id r))
                     detail_runs !! i
                 = Some (fetch_jobs_for_run E fuel owner repo (id r)))
      by (by rewrite list_lookup_fmap, Hi).
    destruct (Forall2_lookup_lr _ _ _ _ _ _ Hg Ht Ho) as (wi & wi' & Hrun).
    by exists wi, wi', o.
  - apply (build_jobs_map_distinct_ids owner repo runs res Hnd Hlen).
Qed.

(** Runs 12 and 13 are selected; the fetch for run 12 fails with a 500 and
    the one for run 13 returns a job: both tasks ran, run 13 keeps its jobs,
    run 12 has no entry and the reason of a queued run without jobs. *)
Lemma enrichment_failure_is_local_witness :
  ∃ jobs_results w',
    gather (map (fun r => fetch_jobs_for_run failing_for_12 1 "o" "r" (id r))
                (filter (fun r => selected r = true) (page_one ++ page_two))) w0
      = Some (Ok jobs_results, w')
    ∧ jobs_results = [Raised (HTTPStatusError 500 "Server Error"); Ok one_job]
    ∧ build_jobs_map (filter (fun r => selected r = true) (page_one ++ page_two))
                     jobs_results !! 13 = Some one_job
    ∧ build_jobs_map (filter (fun r => selected r = true) (page_one ++ page_two))
                     jobs_results !! 12 = None
    ∧ queued_reason_inferred
        (make_row "o" "r"
           (build_jobs_map (filter (fun r => selected r = true) (page_one ++ page_two))
                           jobs_results)
           (a_run 12 (Some "queued") None))
      = Some unknown_or_concurrency.
Proof.
  assert (Hnd : NoDup (map id (page_one ++ page_two))).
  { apply (bool_decide_unpack _). vm_compute. exact I. }
  destruct (enrichment_failure_is_local failing_for_12 1 "o" "r"
              (page_one ++ page_two) w0 Hnd)
    as (res & w' & Hg & Hlen & Hown & Hok & Hfail & _).
  { intros r w' _. unfold fetch_jobs_for_run, bind. simpl.
    unfold bind, client_get. simpl.
    destruct (String.eqb _ _); simpl; eauto. }
  assert (Hc : gather (map (fun r => fetch_jobs_for_run failing_for_12 1 "o" "r" (id r))
                           (filter (fun r => selected r = true) (page_one ++ page_two)))
                      w0
               = Some (Ok [Raised (HTTPStatusError 500 "Server Error"); Ok one_job],
                       requested (jobs_request failing_for_12 "o" "r" 13)
                         (requested (jobs_request failing_for_12 "o" "r" 12) w0)))
    by (vm_compute; reflexivity).
  rewrite Hc in Hg. injection Hg as <- <-.
  eexists _, _. split; [exact Hc|]. split; [reflexivity|]. split; [|split].
  - apply (Hok 1%nat (a_run 13 (Some "in_progress") None)); reflexivity.
  - apply (Hfail 0%nat (a_run 12 (Some "queued") None)
                 (HTTPStatusError 500 "Server Error")); reflexivity.
  - apply (Hfail 0%nat (a_run 12 (Some "queued") None)
                 (HTTPStatusError 500 "Server Error")); reflexivity.
Defined.

(** C7. When the listing of the runs fails, the process ends with status 1
    in the world the listing left, where no file has been written.  When the
    listing succeeds, the exit status is decided by the runs alone, whatever
    the job fetches return or raise; with at least one run the three
    artifacts are written. *)
Theorem listing_failure_is_fatal (E : env) (fuel : nat)
    (owner repo out_prefix : string) (per_page max_pages : Z) (w : world) :
  split_on "/" (owner +:+ "/" +:+ repo) = [owner; repo] →
  (∀ e w1,
     fetch_runs_for_repo E fuel owner repo per_page max_pages w = Some (Raised e, w1) →
     main E fuel owner repo out_prefix per_page max_pages w = Some (1, w1)
     ∧ files w1 = files w)
  ∧ (∀ runs w1,
       fetch_runs_for_repo E fuel owner repo per_page max_pages w = Some (Ok runs, w1) →
       (∀ r w', r ∈ runs → selected r = true →
          is_Some (fetch_jobs_for_run E fuel owner repo (id r) w')) →
       ∃ w3,
         main E fuel owner repo out_prefix per_page max_pages w =
           Some (match runs with [] => 1 | _ :: _ => 0 end, w3)
         ∧ (runs ≠ [] →
            map artifact_path (files w3) =
              map artifact_path (files w)
              ++ [out_prefix +:+ ".json"; out_prefix +:+ ".csv";
                  out_prefix +:+ ".html"])).
Proof.
  intros Hsplit. split.
  - intros e w1 Hruns. split; [|by apply fetch_runs_for_repo_files in Hruns].
    unfold main, process_repo. rewrite Hsplit. unfold bind at 1. by rewrite Hruns.
  - intros runs w1 Hruns Hret.
    destruct (gather_returns
                (map (fun r => fetch_jobs_for_run E fuel owner repo (id r))
                     (filter (fun r => selected r = true) runs)) w1)
      as (res & w2 & Hgather & Hlen).
    { intros t w' Ht. apply list_elem_of_fmap in Ht as (r & -> & Hr).
      apply list_elem_of_filter in Hr as [Hsel Hr]. by apply Hret. }
    pose proof (process_repo_after_batch E fuel owner repo _ per_page max_pages
                  out_prefix w w1 w2 runs res Hsplit Hruns Hgather) as Hproc.
    cbv zeta in Hproc. unfold main. rewrite Hproc.
    apply fetch_runs_for_repo_files in Hruns.
    apply gather_jobs_files in Hgather.
    destruct runs as [|r runs].
    + eexists. split; [reflexivity | done].
    + eexists. split; [reflexivity|]. intros _. simpl.
      rewrite !map_app, Hgather, Hruns, <- !app_assoc. done.
Qed.

(** A provider that answers 500 to the listing: exit status 1, no file.  A
    provider that lists two runs and fails every job fetch: exit status 0 and
    the three files. *)
Lemma listing_failure_is_fatal_witness :
  (main (scripted [] (Ok error_500)) 1 "o" "r" "report" 100 3 w0 =
     Some (1, requested (runs_request (scripted [] (Ok error_500)) "o" "r" 100 1) w0)
   ∧ files (requested (runs_request (scripted [] (Ok error_500)) "o" "r" 100 1) w0)
     = files w0)
  ∧ ∃ w3, main listing_then_errors 1 "o" "r" "report" 100 3 w0 = Some (0, w3)
          ∧ map artifact_path (files w3) =
              map artifact_path (files w0)
              ++ ["report" +:+ ".json"; "report" +:+ ".csv"; "report" +:+ ".html"].
Proof.
  split.
  - apply (proj1 (listing_failure_is_fatal (scripted [] (Ok error_500)) 1
                    "o" "r" "report" 100 3 w0 eq_refl)
                 (HTTPStatusError 500 "Server Error")).
    vm_compute. reflexivity.
  - destruct (proj2 (listing_failure_is_fatal listing_then_errors 1
                       "o" "r" "report" 100 3 w0 eq_refl)
                    page_one
                    (requested (runs_request listing_then_errors "o" "r" 100 1) w0))
      as (w3 & Hmain & Hfiles).
    + vm_compute. reflexivity.
    + intros r w' _ _. unfold fetch_jobs_for_run, bind. simpl.
      unfold bind, client_get. simpl.
      destruct (served w') as [|n]; simpl; eauto.
    + exists w3. split; [exact Hmain | apply Hfiles; discriminate].
Defined.

(** ** The gate *)

Lemma count_insert (c old new : pc) (l : list pc) (i : nat) :
  l !! i = Some old →
  (length (filter (fun x => x = c) (<[i := new]> l))
   + (if decide (old = c) then 1 else 0)
   = length (filter (fun x => x = c) l)
     + (if decide (new = c) then 1 else 0))%nat.
Proof.
  revert i. induction l as [|x l IH]; intros [|i] Hi; simpl in *; try done.
  - injection Hi as ->. rewrite !filter_cons.
    destruct (decide (old = c)), (decide (new = c)); simpl; lia.
  - rewrite !filter_cons. specialize (IH i Hi).
    destruct (decide (x = c)); simpl; lia.
Qed.

Lemma in_flight_spawn (s : gate_state) :
  length (filter (fun x => x = InFlight) (calls s ++ [Waiting])) = in_flight s.
Proof.
  rewrite filter_app, length_app. unfold in_flight.
  rewrite filter_cons. destruct (decide (Waiting = InFlight)); [done|].
  simpl. lia.
Qed.

(** Every action keeps the account of the permits: free permits plus calls
    in flight make the initial value. *)
Lemma gate_do_account (a : action) (s s' : gate_state) :
  gate_do a s = Some s' →
  (permits s + in_flight s = SEMAPHORE_VALUE)%nat →
  (permits s' + in_flight s' = SEMAPHORE_VALUE)%nat.
Proof.
  intros Hdo Hinv. destruct a as [|i|i retry|i]; simpl in Hdo.
  - injection Hdo as <-. unfold in_flight at 1. simpl.
    by rewrite in_flight_spawn.
  - destruct (calls s !! i) as [[]|] eqn:Hi; try done.
    destruct (permits s) as [|p] eqn:Hp; [done|]. injection Hdo as <-.
    pose proof (count_insert InFlight Waiting InFlight _ _ Hi) as Hc.
    unfold in_flight in *. simpl in *.
    destruct (decide (Waiting = InFlight)); [done|].
    destruct (decide (InFlight = InFlight)); [|done]. lia.
  - destruct (calls s !! i) as [[]|] eqn:Hi; try done. injection Hdo as <-.
    pose proof (count_insert InFlight InFlight
                  (if retry then Sleeping else Returned) _ _ Hi) as Hc.
    unfold in_flight in *. simpl in *.
    destruct (decide (InFlight = InFlight)); [|done].
    destruct (decide ((if retry then Sleeping else Returned) = InFlight));
      [by destruct retry|]. lia.
  - destruct (calls s !! i) as [[]|] eqn:Hi; try done. injection Hdo as <-.
    pose proof (count_insert InFlight Sleeping Waiting _ _ Hi) as Hc.
    unfold in_flight in *. simpl in *.
    destruct (decide (Sleeping = InFlight)); [done|].
    destruct (decide (Waiting = InFlight)); [done|]. lia.
Qed.

Lemma gate_run_account (sched : list action) (s s' : gate_state) :
  gate_run sched s = Some s' →
  (permits s + in_flight s = SEMAPHORE_VALUE)%nat →
  (permits s' + in_flight s' = SEMAPHORE_VALUE)%nat.
Proof.
  revert s. induction sched as [|a sched IH]; intros s; simpl.
  - by intros [= <-].
  - destruct (gate_do a s) as [s1|] eqn:Hdo; [|done].
    intros Hrun Hinv. apply (IH s1 Hrun). by apply (gate_do_account a s).
Qed.

(** C9. In every state the event loop can reach, under every schedule, at
    most 10 calls are inside the gate awaiting the provider, whoever started
    them; the free permits are exactly 10 minus the calls in flight, so a
    sleeping call holds none, and a waiting call can enter whenever fewer
    than 10 are in flight. *)
Theorem gate_bounds_in_flight (sched : list action) (s : gate_state) :
  gate_run sched gate_init = Some s →
  (in_flight s ≤ 10)%nat
  ∧ (permits s + in_flight s = 10)%nat
  ∧ (∀ i, calls s !! i = Some Waiting → (in_flight s < 10)%nat →
       ∃ s', gate_do (Acquire i) s = Some s'
             ∧ in_flight s' = S (in_flight s) ∧ sleeping s' = sleeping s)
  ∧ (∀ i s', gate_do (Respond i true) s = Some s' →
       calls s' !! i = Some Sleeping ∧ permits s' = S (permits s)
       ∧ in_flight s' = pred (in_flight s)).
Proof.
  intros Hrun.
  assert (Hacc : (permits s + in_flight s = SEMAPHORE_VALUE)%nat).
  { apply (gate_run_account sched gate_init); [done | reflexivity]. }
  unfold SEMAPHORE_VALUE in Hacc.
  split; [lia|]. split; [done|]. split.
  - intros i Hi Hlt. simpl. rewrite Hi.
    destruct (permits s) as [|p] eqn:Hp; [lia|].
    eexists. split; [reflexivity|]. unfold in_flight, sleeping. simpl.
    pose proof (count_insert InFlight Waiting InFlight _ _ Hi) as Hc.
    pose proof (count_insert Sleeping Waiting InFlight _ _ Hi) as Hd.
    repeat case_decide; try done; lia.
  - intros i s' Hdo. simpl in Hdo.
    destruct (calls s !! i) as [[]|] eqn:Hi; try done. injection Hdo as <-.
    simpl. split.
    + apply list_lookup_insert_eq. by apply lookup_lt_Some with InFlight.
    + split; [done|]. unfold in_flight. simpl.
      pose proof (count_insert InFlight InFlight Sleeping _ _ Hi) as Hc.
      repeat case_decide; try done; lia.
Qed.

(** After [busy_schedule] ten calls sleep and ten others are in flight. *)
Lemma gate_bounds_in_flight_witness :
  ∃ s, gate_run busy_schedule gate_init = Some s
       ∧ sleeping s = 10%nat ∧ in_flight s = 10%nat
       ∧ (in_flight s ≤ 10)%nat ∧ (permits s + in_flight s = 10)%nat
       ∧ gate_do (Acquire 20) s = None.
Proof.
  eexists. split; [vm_compute; reflexivity|].
  split; [reflexivity|]. split; [reflexivity|].
  split; [|split; [|reflexivity]].
  - eapply (gate_bounds_in_flight busy_schedule). vm_compute. reflexivity.
  - eapply (gate_bounds_in_flight busy_schedule). vm_compute. reflexivity.
Defined.

(** * Further properties of the script *)

(** ** [get_json]: effects, header errors *)

Lemma sleeps_in_app (t1 t2 : list effect) :
  sleeps_in (t1 ++ t2) = (sleeps_in t1 + sleeps_in t2)%nat.
Proof. unfold sleeps_in. by rewrite filter_app, length_app. Qed.

(** X2. Whatever the provider answers and however the call ends, [get_json]
    leaves the files alone, never moves the clock back, issues at least one
    request, and does nothing but repeat its own request and sleep five
    seconds or more. *)
Theorem get_json_effects (E : env) (fuel : nat) (rq : request) (w w' : world)
    (o : outcome json_body) :
  get_json E fuel rq w = Some (o, w') →
  files w' = files w
  ∧ now w ≤ now w'
  ∧ (served w < served w')%nat
  ∧ ∃ l, trace w' = trace w ++ l ∧ Forall (own_request_or_backoff rq) l.
Proof.
  revert w. induction fuel as [|fuel IH]; intros w; [done|].
  assert (Hone : ∀ o1, Some (o1, requested rq w) = Some (o, w') →
            files w' = files w ∧ now w ≤ now w' ∧ (served w < served w')%nat
            ∧ ∃ l, trace w' = trace w ++ l ∧ Forall (own_request_or_backoff rq) l).
  { intros o1 [= _ <-]. simpl. split; [done|]. split; [lia|]. split; [lia|].
    exists [Requested rq]. split; [done|]. apply Forall_singleton. by left. }
  destruct (server E (served w) rq) as [r|e] eqn:Hr.
  - rewrite (get_json_step _ _ _ _ _ Hr).
    assert (Hfin : finish r (requested rq w) = Some (o, w') →
              files w' = files w ∧ now w ≤ now w' ∧ (served w < served w')%nat
              ∧ ∃ l, trace w' = trace w ++ l ∧ Forall (own_request_or_backoff rq) l).
    { unfold finish, or_raise, ret, raise.
      destruct (is_success r); [destruct (json r)|]; apply Hone. }
    destruct (rate_limited r); [|done]. cbv zeta.
    destruct (truthy_str _); [|done].
    unfold bind at 1, or_raise.
    destruct (headers_get (headers r) "X-RateLimit-Reset" ≫= py_int E) as [z|].
    + unfold ret. unfold bind at 1, time_time. unfold bind at 1, print_wait.
      destruct (py_format_int E _); [|unfold raise; apply Hone].
      unfold ret. unfold bind at 1, sleep.
      destruct (_ <? FLOAT_OVERFLOW); [|apply Hone].
      intros (Hf & Hn & Hs & l & Ht & Hl)%IH. simpl in *.
      split; [done|]. split; [lia|]. split; [lia|].
      exists (Requested rq :: Slept (Z.max 5 (z - now w + 5)) :: l).
      split; [by rewrite Ht, <- !app_assoc|].
      apply Forall_cons. split; [by left|].
      apply Forall_cons. split; [|done].
      right. eexists. split; [done | lia].
    + unfold raise. apply Hone.
  - rewrite (get_json_transport _ _ _ _ _ Hr). apply Hone.
Qed.

Lemma get_json_effects_witness :
  files (requested some_request (slept 35 (requested some_request w0))) = files w0
  ∧ now w0 ≤ now (requested some_request (slept 35 (requested some_request w0)))
  ∧ (served w0 < served (requested some_request (slept 35 (requested some_request w0))))%nat
  ∧ ∃ l, trace (requested some_request (slept 35 (requested some_request w0)))
           = trace w0 ++ l
         ∧ Forall (own_request_or_backoff some_request) l.
Proof.
  apply (get_json_effects
           (scripted [Ok (rate_limit_403 [("X-RateLimit-Reset", "1030")]);
                      Ok (ok_200 EmptyObject)] (Ok error_500))
           2 some_request w0 _ (Ok EmptyObject)).
  vm_compute. reflexivity.
Defined.

(** X3. A rate-limit answer whose reset header is non-empty and refused by
    [int] makes [get_json] raise [ValueError] from [int(reset)]: one request,
    no sleep, no retry, and not the HTTP status error. *)
Theorem get_json_reset_not_integer (E : env) (fuel : nat) (rq : request)
    (w : world) (r : response) (reset : string) :
  server E (served w) rq = Ok r →
  rate_limited r = true →
  headers_get (headers r) "X-RateLimit-Reset" = Some reset →
  reset ≠ "" →
  py_int E reset = None →
  get_json E (S fuel) rq w = Some (Raised ValueError, requested rq w).
Proof.
  intros Hr Hrl Hh Hne Hint. rewrite (get_json_step _ _ _ _ _ Hr), Hrl. simpl.
  rewrite Hh. simpl. apply String.eqb_neq in Hne. rewrite Hne. simpl.
  unfold bind, or_raise, raise. by rewrite Hint.
Qed.

(** A reset time written with a fraction. *)
Lemma get_json_reset_not_integer_witness :
  get_json (scripted [] (Ok (rate_limit_403 [("X-RateLimit-Reset", "1030.5")])))
           1 some_request w0
  = Some (Raised ValueError, requested some_request w0).
Proof.
  apply (get_json_reset_not_integer _ 0 some_request w0
           (rate_limit_403 [("X-RateLimit-Reset", "1030.5")]) "1030.5");
    [reflexivity | reflexivity | reflexivity | discriminate | reflexivity].
Defined.

(** ** [fetch_jobs_for_run] *)

(** X4. On an answer that is not a rate-limit answer, [fetch_jobs_for_run]
    issues the one request for the jobs of the run, without query
    parameters, and its result is read off the answer: the HTTP status error
    for a non-success, [JSONDecodeError] for a body that is not JSON,
    [AttributeError] for a JSON body that is not an object (also [null]), the
    empty list for an object without a ["jobs"] key, the list under the key
    otherwise. *)
Theorem fetch_jobs_for_run_result (E : env) (fuel : nat) (owner repo : string)
    (run_id : Z) (w : world) (r : response) :
  server E (served w) (jobs_request E owner repo run_id) = Ok r →
  rate_limited r = false →
  fetch_jobs_for_run E (S fuel) owner repo run_id w =
    Some (if is_success r then
            match json r with
            | None => Raised JSONDecodeError
            | Some (NonObject _) => Raised AttributeError
            | Some EmptyObject => Ok []
            | Some (Object _ None) => Ok []
            | Some (Object _ (Some js)) => Ok js
            end
          else Raised (HTTPStatusError (status_code r) (text r)),
          requested {| url := API_BASE E +:+ "/repos/" +:+ owner +:+ "/" +:+ repo
                              +:+ "/actions/runs/" +:+ pretty run_id +:+ "/jobs";
                       params := None |} w).
Proof.
  intros Hr Hrl. unfold fetch_jobs_for_run, bind.
  rewrite (get_json_step _ _ _ _ _ Hr), Hrl. unfold finish.
  destruct (is_success r); [|done].
  destruct (json r) as [[b| |wr [js|]]|]; done.
Qed.

Lemma fetch_jobs_for_run_result_witness :
  fetch_jobs_for_run (scripted [Ok (ok_200 (Object None None))] (Ok error_500))
                     1 "o" "r" 7 w0
  = Some (Ok [], requested some_request w0).
Proof.
  apply (fetch_jobs_for_run_result
           (scripted [Ok (ok_200 (Object None None))] (Ok error_500))
           0 "o" "r" 7 w0 (ok_200 (Object None None))); reflexivity.
Defined.

(** ** [fetch_runs_for_repo]: failures, bounds *)

Lemma py_range_nil (a b : Z) : b ≤ a → py_range a b = [].
Proof. intros H. unfold py_range. by replace (Z.to_nat (b - a)) with 0%nat by lia. Qed.

Lemma py_range_cons (a b : Z) : a < b → py_range a b = a :: py_range (a + 1) b.
Proof.
  intros H. unfold py_range.
  replace (Z.to_nat (b - a)) with (S (Z.to_nat (b - (a + 1)))) by lia.
  simpl. f_equal; [lia|]. rewrite <- fmap_S_seq, <- list_fmap_compose.
  apply list_fmap_ext. intros _ i _. simpl. lia.
Qed.

Lemma py_range_split (a m b : Z) :
  a ≤ m ≤ b → py_range a b = py_range a m ++ py_range m b.
Proof.
  intros H. unfold py_range.
  replace (Z.to_nat (b - a)) with (Z.to_nat (m - a) + Z.to_nat (b - m))%nat by lia.
  rewrite seq_app, fmap_app. f_equal. simpl.
  replace (seq (Z.to_nat (m - a)) (Z.to_nat (b - m)))
    with (Nat.add (Z.to_nat (m - a)) <$> seq 0 (Z.to_nat (b - m)))
    by (rewrite fmap_add_seq; f_equal; lia).
  rewrite <- list_fmap_compose.
  apply list_fmap_ext. intros _ i _. simpl. lia.
Qed.

(** X5. With [max_pages] zero or negative the loop body never runs:
    [fetch_runs_for_repo] returns the empty list without a single request. *)
Theorem fetch_runs_for_repo_no_pages (E : env) (fuel : nat) (owner repo : string)
    (per_page max_pages : Z) (w : world) :
  max_pages ≤ 0 →
  fetch_runs_for_repo E fuel owner repo per_page max_pages w = Some (Ok [], w).
Proof.
  intros H. unfold fetch_runs_for_repo. rewrite py_range_nil by lia. done.
Qed.

Lemma fetch_runs_for_repo_no_pages_witness :
  fetch_runs_for_repo (scripted [] (Ok error_500)) 0 "o" "r" 100 0 w0
  = Some (Ok [], w0).
Proof. apply fetch_runs_for_repo_no_pages. lia. Defined.

(** The loop over [good ++ p :: rest] when every page of [good] is full and
    the request for [p] fails. *)
Lemma pages_loop_failure (E : env) (fuel : nat) (owner repo : string) (per_page : Z)
    (r : response) (good : list Z) (p : Z) (rest : list Z) :
  ∀ (acc : list run) (w : world),
  (∀ i q, good !! i = Some q →
     ∃ r' l o, server E (served w + i) (runs_request E owner repo per_page q) = Ok r'
               ∧ is_success r' = true ∧ json r' = Some (Object (Some l) o)
               ∧ per_page ≤ Z.of_nat (length l)) →
  server E (served w + length good) (runs_request E owner repo per_page p) = Ok r →
  rate_limited r = false →
  is_success r = false →
  pages_loop E (S fuel) owner repo per_page (good ++ p :: rest) acc w =
    Some (Raised (HTTPStatusError (status_code r) (text r)),
          requested_pages E owner repo per_page (good ++ [p]) w).
Proof.
  induction good as [|q good IH]; intros acc w Hgood Hr Hrl Hs.
  - cbn [length] in Hr. rewrite Nat.add_0_r in Hr.
    cbn [app pages_loop]. unfold bind.
    by rewrite (get_json_error _ _ _ _ r Hr Hrl Hs).
  - destruct (Hgood 0%nat q eq_refl) as (r' & l & o & Hr' & Hs' & Hb & Hfull).
    rewrite Nat.add_0_r in Hr'.
    cbn [app pages_loop]. unfold bind at 1.
    rewrite (get_json_success _ _ _ _ r' _ Hr' Hs' Hb).
    cbn [truthy_json negb]. unfold bind at 1. cbn [get_workflow_runs].
    change (default [] (Some l)) with l. unfold ret at 1.
    destruct (Z.of_nat (length l) <? per_page) eqn:Hlt; [apply Z.ltb_lt in Hlt; lia|].
    rewrite IH; [done| | |done|done].
    + intros i q' Hq'. destruct (Hgood (S i) q' Hq') as (r2 & l2 & o2 & H2 & Hrest).
      exists r2, l2, o2. split; [|done]. simpl.
      by replace (S (served w + i)) with (served w + S i)%nat by lia.
    + cbn [length] in Hr. simpl.
      by replace (S (served w + length good))
        with (served w + S (length good))%nat by lia.
Qed.

(** X6. A failure on a later page loses the earlier pages: when the pages
    [1..j] come back full and the request for page [j + 1] is answered with
    a non-success status, [fetch_runs_for_repo] raises the HTTP status error
    and returns none of the runs it had collected. *)
Theorem fetch_runs_for_repo_failure_discards (E : env) (fuel : nat)
    (owner repo : string) (per_page max_pages : Z) (j : nat) (w : world)
    (r : response) :
  Z.of_nat j < max_pages →
  (∀ i, (i < j)%nat →
     ∃ r' l o,
       server E (served w + i)
              (runs_request E owner repo per_page (Z.of_nat i + 1)) = Ok r'
       ∧ is_success r' = true ∧ json r' = Some (Object (Some l) o)
       ∧ per_page ≤ Z.of_nat (length l)) →
  server E (served w + j) (runs_request E owner repo per_page (Z.of_nat j + 1)) = Ok r →
  rate_limited r = false →
  is_success r = false →
  fetch_runs_for_repo E (S fuel) owner repo per_page max_pages w =
    Some (Raised (HTTPStatusError (status_code r) (text r)),
          requested_pages E owner repo per_page (py_range 1 (Z.of_nat j + 2)) w).
Proof.
  intros Hj Hgood Hr Hrl Hs. unfold fetch_runs_for_repo.
  rewrite (py_range_split 1 (Z.of_nat j + 1) (max_pages + 1)) by lia.
  rewrite (py_range_cons (Z.of_nat j + 1) (max_pages + 1)) by lia.
  rewrite (py_range_split 1 (Z.of_nat j + 1) (Z.of_nat j + 2)) by lia.
  rewrite (py_range_cons (Z.of_nat j + 1) (Z.of_nat j + 2)) by lia.
  rewrite (py_range_nil (Z.of_nat j + 1 + 1) (Z.of_nat j + 2)) by lia.
  assert (Hlen : length (py_range 1 (Z.of_nat j + 1)) = j).
  { rewrite py_range_length. lia. }
  apply pages_loop_failure; [|by rewrite Hlen|done|done].
  intros i q Hq.
  assert (Hi : (i < j)%nat) by (rewrite <- Hlen; by apply lookup_lt_Some with q).
  apply py_range_lookup in Hq as ->.
  replace (1 + Z.of_nat i) with (Z.of_nat i + 1) by lia. by apply Hgood.
Qed.

(** Page 1 is full ([per_page = 2]), page 2 is answered with a 500. *)
Lemma fetch_runs_for_repo_failure_discards_witness :
  fetch_runs_for_repo
    (scripted [Ok (ok_200 (Object (Some page_one) None))] (Ok error_500))
    1 "o" "r" 2 3 w0
  = Some (Raised (HTTPStatusError 500 "Server Error"),
          requested_pages
            (scripted [Ok (ok_200 (Object (Some page_one) None))] (Ok error_500))
            "o" "r" 2 (py_range 1 (Z.of_nat 1 + 2)) w0).
Proof.
  apply (fetch_runs_for_repo_failure_discards
           (scripted [Ok (ok_200 (Object (Some page_one) None))] (Ok error_500))
           0 "o" "r" 2 3 1 w0 error_500);
    [lia | | reflexivity | reflexivity | reflexivity].
  intros [|i] Hi; [|lia].
  exists (ok_200 (Object (Some page_one) None)), page_one, None.
  split; [reflexivity|]. split; [reflexivity|]. split; [reflexivity | simpl; lia].
Defined.

Lemma concat_length_bound {A B} (f : A → list B) (l : list A) (b : nat) :
  (∀ x, x ∈ l → (length (f x) ≤ b)%nat) →
  (length (concat (map f l)) ≤ length l * b)%nat.
Proof.
  induction l as [|x l IH]; intros H; simpl; [lia|].
  rewrite length_app.
  assert (length (f x) ≤ b)%nat by (apply H; by left).
  assert (length (concat (map f l)) ≤ length l * b)%nat
    by (apply IH; intros y Hy; apply H; by right).
  lia.
Qed.

Section PaginatorBound.
Context (E : env) (fuel : nat) (owner repo : string) (per_page : Z).
Context (pages : Z → json_body).
Hypothesis served_ok : ∀ n p, ∃ r,
  server E n (runs_request E owner repo per_page p) = Ok r
  ∧ is_success r = true ∧ json r = Some (pages p).
Hypothesis well_shaped : ∀ p, pages p ≠ NonObject true.
(** The provider never returns more than it was asked for. *)
Hypothesis page_bound : ∀ p, Z.of_nat (length (page_items (pages p))) ≤ per_page.

(** X7. Against a provider that answers every listing request and never
    returns more than [per_page] items on a page, [fetch_runs_for_repo]
    returns at most [max_pages * per_page] runs after at most [max_pages]
    requests. *)
Theorem fetch_runs_for_repo_bounded (max_pages : Z) (w : world) :
  ∃ runs w',
    fetch_runs_for_repo E (S fuel) owner repo per_page max_pages w = Some (Ok runs, w')
    ∧ Z.of_nat (length runs) ≤ Z.max 0 max_pages * per_page
    ∧ (served w' ≤ served w + Z.to_nat max_pages)%nat.
Proof.
  destruct (pages_loop_prefix E fuel owner repo per_page pages served_ok well_shaped
              (py_range 1 (max_pages + 1)) [] w) as (k & Hk & Hrun & _).
  rewrite py_range_length in Hk.
  replace (Z.to_nat (max_pages + 1 - 1)) with (Z.to_nat max_pages) in Hk by lia.
  eexists _, _. split; [exact Hrun|]. split.
  - simpl.
    pose proof (concat_length_bound (fun p => page_items (pages p))
                  (take k (py_range 1 (max_pages + 1))) (Z.to_nat per_page)) as Hb.
    assert (Hlen : (length (take k (py_range 1 (max_pages + 1))) ≤ k)%nat)
      by (rewrite length_take; lia).
    assert (0 ≤ per_page) by (pose proof (page_bound 0); lia).
    assert (length (concat (map (fun p => page_items (pages p))
                                (take k (py_range 1 (max_pages + 1)))))
            ≤ length (take k (py_range 1 (max_pages + 1))) * Z.to_nat per_page)%nat.
    { apply Hb. intros p _. pose proof (page_bound p). lia. }
    nia.
  - rewrite served_requested_pages, length_take. lia.
Qed.
End PaginatorBound.

(** The two-page listing with [per_page = 2] and [max_pages = 3]. *)
Lemma fetch_runs_for_repo_bounded_witness :
  ∃ runs w',
    fetch_runs_for_repo (paged two_pages) 1 "o" "r" 2 3 w0 = Some (Ok runs, w')
    ∧ Z.of_nat (length runs) ≤ Z.max 0 3 * 2
    ∧ (served w' ≤ served w0 + Z.to_nat 3)%nat.
Proof.
  apply (fetch_runs_for_repo_bounded (paged two_pages) 0 "o" "r" 2 two_pages
           (fun n p => ex_intro _ (ok_200 (two_pages p))
                         (conj eq_refl (conj eq_refl eq_refl)))
           (fun p => ltac:(unfold two_pages; repeat case_match; discriminate))
           (fun p => ltac:(unfold two_pages; repeat case_match; simpl; lia))
           3 w0).
Defined.

(** ** [infer_queued_reason]: order and shape of the job list *)

Lemma forallb_Permutation {A} (f : A → bool) (l l' : list A) :
  l ≡ₚ l' → forallb f l = forallb f l'.
Proof.
  induction 1 as [|x l l' _ IH|x y l|l l' l'' _ IH1 _ IH2]; simpl.
  - done.
  - by rewrite IH.
  - by destruct (f x), (f y).
  - by rewrite IH1.
Qed.

Lemma existsb_Permutation {A} (f : A → bool) (l l' : list A) :
  l ≡ₚ l' → existsb f l = existsb f l'.
Proof.
  induction 1 as [|x l l' _ IH|x y l|l l' l'' _ IH1 _ IH2]; simpl.
  - done.
  - by rewrite IH.
  - by destruct (f x), (f y).
  - by rewrite IH1.
Qed.

(** X8. The reason does not depend on the order in which the provider lists
    the jobs. *)
Theorem infer_queued_reason_Permutation (r : run) (jobs jobs' : list job) :
  jobs ≡ₚ jobs' →
  infer_queued_reason r jobs = infer_queued_reason r jobs'.
Proof.
  intros Hp. unfold infer_queued_reason.
  rewrite (forallb_Permutation awaiting jobs jobs' Hp).
  rewrite (existsb_Permutation awaiting jobs jobs' Hp).
  assert (truthy_list jobs = truthy_list jobs') as ->; [|done].
  destruct jobs as [|j jobs], jobs' as [|j' jobs']; try done.
  - by apply Permutation_nil_cons in Hp.
  - symmetry in Hp. by apply Permutation_nil_cons in Hp.
Qed.

Lemma infer_queued_reason_Permutation_witness :
  infer_queued_reason queued_run
    [ {| job_status := Some "queued"; runner_name := Some "r1" |};
      {| job_status := Some "queued"; runner_name := None |} ]
  = infer_queued_reason queued_run
    [ {| job_status := Some "queued"; runner_name := None |};
      {| job_status := Some "queued"; runner_name := Some "r1" |} ].
Proof. apply infer_queued_reason_Permutation, perm_swap. Defined.

(** X9. [runner_capacity] is only ever inferred from a mixed job list: some
    job queued without a runner and some job that is not, so at least two
    jobs.  A run with a single job never gets this reason. *)
Theorem runner_capacity_needs_mixed_jobs (r : run) (jobs : list job) :
  infer_queued_reason r jobs = Some runner_capacity →
  status r = Some "queued"
  ∧ (∃ j1 j2, j1 ∈ jobs ∧ j2 ∈ jobs
              ∧ queued_unassigned j1 ∧ ¬ queued_unassigned j2)
  ∧ (2 ≤ length jobs)%nat.
Proof.
  unfold infer_queued_reason.
  destruct (py_eq (status r) "queued") eqn:Hs; [|done].
  apply py_eq_true in Hs.
  destruct (truthy_list jobs); [|done].
  destruct (forallb awaiting jobs) eqn:Hall; [done|].
  destruct (existsb awaiting jobs) eqn:Hany; [|done]. intros _.
  apply existsb_exists in Hany as (j1 & Hj1 & Ha1).
  apply list_elem_of_In in Hj1.
  assert (∃ j2, j2 ∈ jobs ∧ awaiting j2 = false) as (j2 & Hj2 & Ha2).
  { clear Hj1. induction jobs as [|j jobs IH]; [done|]. simpl in Hall.
    destruct (awaiting j) eqn:Hj.
    - destruct (IH Hall) as (j2 & Hin & Hf). exists j2. split; [by right | done].
    - exists j. split; [by left | done]. }
  assert (Hne : j1 ≠ j2) by (intros ->; congruence).
  split; [done|]. split.
  - exists j1, j2. split; [done|]. split; [done|]. split.
    + by apply awaiting_true.
    + intros Hq%awaiting_true. congruence.
  - destruct jobs as [|a [|b jobs]]; simpl; [| |lia].
    + by apply elem_of_nil in Hj1.
    + apply list_elem_of_singleton in Hj1, Hj2. congruence.
Qed.

Lemma runner_capacity_needs_mixed_jobs_witness :
  status queued_run = Some "queued"
  ∧ (∃ j1 j2,
       j1 ∈ [ {| job_status := Some "queued"; runner_name := Some "r1" |};
              {| job_status := Some "queued"; runner_name := None |} ]
       ∧ j2 ∈ [ {| job_status := Some "queued"; runner_name := Some "r1" |};
                {| job_status := Some "queued"; runner_name := None |} ]
       ∧ queued_unassigned j1 ∧ ¬ queued_unassigned j2)
  ∧ (2 ≤ length [ {| job_status := Some "queued"; runner_name := Some "r1" |};
                  {| job_status := Some "queued"; runner_name := None |} ])%nat.
Proof. apply (runner_capacity_needs_mixed_jobs queued_run). reflexivity. Defined.

(** ** The jobs dictionary without the assumption of distinct ids *)

Lemma foldl_jobs_map_last (k : Z) (l : list (run * outcome (list job)))
    (m : gmap Z (list job)) :
  foldl jobs_map_step m l !! k =
    match last (omap (success_for k) l) with
    | Some js => Some js
    | None => m !! k
    end.
Proof.
  revert m. induction l as [|[r o] l IH]; intros m; [done|].
  cbn [foldl]. rewrite IH. cbn [omap list_omap].
  unfold success_for at 2, jobs_map_step. simpl.
  destruct o as [js|e]; [|done].
  destruct (decide (id r = k)) as [<-|Hne].
  - rewrite last_cons, lookup_insert_eq.
    by destruct (last (omap (success_for (id r)) l)).
  - by rewrite lookup_insert_ne.
Qed.

(** X10. For any batch, ids repeated or not, the entry of the dictionary
    under a run id is the job list of the last task for that id that
    succeeded; there is no entry when no task for that id succeeded.  A
    failed fetch neither creates nor removes an entry. *)
Theorem build_jobs_map_last_success (detail_runs : list run)
    (jobs_results : list (outcome (list job))) (k : Z) :
  build_jobs_map detail_runs jobs_results !! k =
    last (successes_for k detail_runs jobs_results).
Proof.
  unfold build_jobs_map, successes_for. rewrite foldl_jobs_map_last.
  rewrite lookup_empty. by destruct (last _).
Qed.

(** ** The summary: one line per key, in key order *)

Lemma ascii_compare_refl (a : ascii) : Ascii.compare a a = Eq.
Proof. unfold Ascii.compare. apply N.compare_refl. Qed.

Lemma ascii_compare_lt_trans (a b c : ascii) :
  Ascii.compare a b = Lt → Ascii.compare b c = Lt → Ascii.compare a c = Lt.
Proof. unfold Ascii.compare. rewrite !N.compare_lt_iff. lia. Qed.

Lemma string_compare_refl (s : string) : String.compare s s = Eq.
Proof. induction s as [|a s IH]; simpl; [done|]. by rewrite ascii_compare_refl. Qed.

Lemma string_compare_lt_trans (a b c : string) :
  String.compare a b = Lt → String.compare b c = Lt → String.compare a c = Lt.
Proof.
  revert b c. induction a as [|x a IH]; intros [|y b] [|z c]; simpl; try done.
  destruct (Ascii.compare x y) eqn:Hxy; [| |done].
  - apply Ascii.compare_eq_iff in Hxy as ->.
    destruct (Ascii.compare y z) eqn:Hyz; [apply IH|done|done].
  - destruct (Ascii.compare y z) eqn:Hyz; [| |done].
    + apply Ascii.compare_eq_iff in Hyz as <-. by rewrite Hxy.
    + by rewrite (ascii_compare_lt_trans x y z).
Qed.

Lemma key_compare_eq (a b : string * string) : key_compare a b = Eq → a = b.
Proof.
  destruct a as [a1 a2], b as [b1 b2]. unfold key_compare. simpl.
  destruct (String.compare a1 b1) eqn:H1; [|done|done].
  intros H2. apply String.compare_eq_iff in H1, H2. congruence.
Qed.

Lemma key_compare_refl (a : string * string) : key_compare a a = Eq.
Proof. unfold key_compare. by rewrite !string_compare_refl. Qed.

Lemma key_compare_gt_lt (a b : string * string) :
  key_compare a b = Gt → key_lt b a.
Proof.
  destruct a as [a1 a2], b as [b1 b2]. unfold key_lt, key_compare. simpl.
  rewrite (String.compare_antisym b1 a1), (String.compare_antisym b2 a2).
  destruct (String.compare a1 b1); simpl; [|done|done].
  by destruct (String.compare a2 b2).
Qed.

Lemma key_lt_trans (a b c : string * string) : key_lt a b → key_lt b c → key_lt a c.
Proof.
  destruct a as [a1 a2], b as [b1 b2], c as [c1 c2]. unfold key_lt, key_compare. simpl.
  destruct (String.compare a1 b1) eqn:Hab; [| |done].
  - apply String.compare_eq_iff in Hab as ->.
    destruct (String.compare b1 c1) eqn:Hbc; [|done|done].
    apply string_compare_lt_trans.
  - intros _. destruct (String.compare b1 c1) eqn:Hbc; [| |done].
    + apply String.compare_eq_iff in Hbc as <-. by rewrite Hab.
    + by rewrite (string_compare_lt_trans a1 b1 c1).
Qed.

Lemma key_lt_irrefl (a : string * string) : ¬ key_lt a a.
Proof. unfold key_lt. by rewrite key_compare_refl. Qed.

Lemma bump_group_count (k k' : string * string) (groups : list count_row) :
  group_count k' (bump k groups) =
    (group_count k' groups + if decide (k = k') then 1 else 0)%nat.
Proof.
  unfold group_count. induction groups as [|g gs IH]; simpl.
  - rewrite filter_cons. unfold row_key at 1. simpl.
    destruct k as [k1 k2]. simpl. destruct (decide ((k1, k2) = k')); simpl; done.
  - change (g_status g, g_conclusion g) with (row_key g).
    destruct (key_compare k (row_key g)) eqn:Hc.
    + apply key_compare_eq in Hc as ->. rewrite !filter_cons.
      unfold row_key at 1. simpl. change (g_status g, g_conclusion g) with (row_key g).
      destruct (decide (row_key g = k')); simpl; lia.
    + rewrite (filter_cons _ {| g_status := k.1 |}). unfold row_key at 1. simpl.
      destruct k as [k1 k2]. simpl.
      destruct (decide ((k1, k2) = k')); simpl; lia.
    + rewrite !filter_cons.
      destruct (decide (row_key g = k')); simpl; rewrite IH; lia.
Qed.

Lemma foldl_count_step_group_count (k : string * string) (df : list tabular)
    (groups : list count_row) :
  group_count k (foldl count_step groups df) =
    (group_count k groups + length (filter (fun t => group_key t = Some k) df))%nat.
Proof.
  revert groups. induction df as [|t df IH]; intros groups; simpl; [lia|].
  rewrite IH, filter_cons. unfold count_step.
  destruct (group_key t) as [k0|].
  - rewrite bump_group_count.
    destruct (decide (k0 = k)) as [->|Hne].
    + destruct (decide (Some k = Some k)); [simpl; lia | done].
    + destruct (decide (Some k0 = Some k)); [congruence | lia].
  - destruct (decide (None = Some k)); [done | lia].
Qed.

(** X11. The count the summary shows for a (status, conclusion) pair is the
    number of records with that status and that conclusion; a pair that no
    record has gets no line. *)
Theorem groupby_size_counts (df : list tabular) (counts : list count_row)
    (k : string * string) :
  groupby_size df = Ok counts →
  group_count k counts = length (filter (fun t => group_key t = Some k) df).
Proof.
  destruct df as [|t df]; [done|]. intros [= <-].
  apply (foldl_count_step_group_count k (t :: df) []).
Qed.

Lemma groupby_size_counts_witness :
  group_count ("completed", "success")
    [ {| g_status := "completed"; g_conclusion := "success"; count := 1 |} ]
  = length (filter (fun t => group_key t = Some ("completed", "success"))
                   (map to_tabular (build_rows "o" "r" ∅ page_one))).
Proof.
  apply (groupby_size_counts (map to_tabular (build_rows "o" "r" ∅ page_one))).
  vm_compute. reflexivity.
Defined.

Lemma bump_keys (k : string * string) (groups : list count_row) (g' : count_row) :
  g' ∈ bump k groups →
  row_key g' = k ∨ ∃ g, g ∈ groups ∧ row_key g = row_key g'.
Proof.
  induction groups as [|g gs IH]; simpl.
  - intros Hin. apply list_elem_of_singleton in Hin. subst g'. left. by destruct k.
  - destruct (key_compare k (g_status g, g_conclusion g)).
    + intros Hin. apply elem_of_cons in Hin as [Heq|Hin].
      * subst g'. right. exists g. split; [by left | done].
      * right. exists g'. split; [by right | done].
    + intros Hin. apply elem_of_cons in Hin as [Heq|Hin].
      * subst g'. left. by destruct k.
      * right. by exists g'.
    + intros Hin. apply elem_of_cons in Hin as [Heq|Hin].
      * subst g'. right. exists g. split; [by left | done].
      * destruct (IH Hin) as [?|(g0 & Hg0 & Hk)]; [by left|].
        right. exists g0. split; [by right | done].
Qed.

Lemma bump_ascending (k : string * string) (groups : list count_row) :
  ascending groups → ascending (bump k groups).
Proof.
  induction groups as [|g gs IH]; simpl; [done|].
  intros [Hg Hgs].
  change (g_status g, g_conclusion g) with (row_key g).
  destruct (key_compare k (row_key g)) eqn:Hc; simpl.
  - done.
  - split; [|done]. apply Forall_cons. unfold row_key at 1. simpl.
    assert (Hk : key_lt k (row_key g)) by done.
    destruct k as [k1 k2]. simpl. split; [done|].
    eapply Forall_impl; [exact Hg|]. intros g' Hg'. simpl in Hg'.
    by apply key_lt_trans with (row_key g).
  - split; [|by apply IH]. apply Forall_forall. intros g' Hin.
    apply bump_keys in Hin as [->|(g0 & Hg0 & <-)].
    + by apply key_compare_gt_lt.
    + by apply (proj1 (Forall_forall _ _) Hg).
Qed.

Lemma bump_positive (k : string * string) (groups : list count_row) :
  Forall (fun g => (1 ≤ count g)%nat) groups →
  Forall (fun g => (1 ≤ count g)%nat) (bump k groups).
Proof.
  induction groups as [|g gs IH]; simpl.
  - intros _. apply Forall_singleton. simpl. lia.
  - intros [Hg Hgs]%Forall_cons.
    destruct (key_compare k (g_status g, g_conclusion g)).
    + apply Forall_cons. split; [simpl; lia | done].
    + apply Forall_cons. split; [simpl; lia|]. by apply Forall_cons.
    + apply Forall_cons. split; [done | by apply IH].
Qed.

Lemma ascending_NoDup (groups : list count_row) :
  ascending groups → NoDup (map row_key groups).
Proof.
  induction groups as [|g gs IH]; simpl; [intros _; apply NoDup_nil_2|].
  intros [Hg Hgs]. apply NoDup_cons. split; [|by apply IH].
  intros (g' & Heq & Hin)%list_elem_of_fmap.
  apply (key_lt_irrefl (row_key g)). rewrite Heq at 2.
  by apply (proj1 (Forall_forall _ _) Hg).
Qed.

(** X12. The summary never has two lines for one (status, conclusion) pair:
    its lines are in strictly increasing order of the pair, and every line
    counts at least one record. *)
Theorem groupby_size_sorted (df : list tabular) (counts : list count_row) :
  groupby_size df = Ok counts →
  ascending counts
  ∧ NoDup (map row_key counts)
  ∧ Forall (fun g => (1 ≤ count g)%nat) counts.
Proof.
  destruct df as [|t0 df0]; [done|]. intros [= <-].
  assert (H : ∀ (df : list tabular) groups,
            ascending groups → Forall (fun g => (1 ≤ count g)%nat) groups →
            ascending (foldl count_step groups df)
            ∧ Forall (fun g => (1 ≤ count g)%nat) (foldl count_step groups df)).
  { induction df as [|t df IH]; intros groups Ha Hp; [done|]. simpl.
    unfold count_step at 2 4. destruct (group_key t) as [k|].
    - apply IH; [by apply bump_ascending | by apply bump_positive].
    - by apply IH. }
  destruct (H (t0 :: df0) []) as [Ha Hp]; [done | apply Forall_nil_2|].
  split; [done|]. split; [by apply ascending_NoDup | done].
Qed.

Lemma groupby_size_sorted_witness :
  ascending [ {| g_status := "completed"; g_conclusion := "success"; count := 1 |} ]
  ∧ NoDup (map row_key
             [ {| g_status := "completed"; g_conclusion := "success"; count := 1 |} ])
  ∧ Forall (fun g => (1 ≤ count g)%nat)
      [ {| g_status := "completed"; g_conclusion := "success"; count := 1 |} ].
Proof.
  apply (groupby_size_sorted (map to_tabular (build_rows "o" "r" ∅ page_one))).
  vm_compute. reflexivity.
Defined.

(** X13. The counts of the summary add up to the number of records whose
    status and conclusion are both non-null, which can be fewer than the
    rows. *)
Theorem groupby_size_sums_keyed (df : list tabular) (counts : list count_row) :
  groupby_size df = Ok counts →
  sum_list_with count counts = length (filter keyed df)
  ∧ (sum_list_with count counts ≤ length df)%nat.
Proof.
  intros H. destruct df as [|t df]; [done|]. injection H as <-.
  change (foldl count_step (count_step [] t) df)
    with (foldl count_step [] (t :: df)).
  rewrite (foldl_count_step_total (t :: df) []). cbn [sum_list_with Nat.add].
  split; [done|]. apply length_filter.
Qed.

Lemma groupby_size_sums_keyed_witness :
  sum_list_with count
    [ {| g_status := "completed"; g_conclusion := "success"; count := 1 |} ]
  = length (filter keyed (map to_tabular (build_rows "o" "r" ∅ page_one)))
  ∧ (sum_list_with count
       [ {| g_status := "completed"; g_conclusion := "success"; count := 1 |} ]
     ≤ length (map to_tabular (build_rows "o" "r" ∅ page_one)))%nat.
Proof.
  apply (groupby_size_sums_keyed (map to_tabular (build_rows "o" "r" ∅ page_one))).
  vm_compute. reflexivity.
Defined.

(** ** The table of queued runs *)

(** X14. The table of queued runs shows at most 200 records, all of them
    queued, in the order of the listing; when the listing has no more than
    200 queued runs it shows every one of them. *)
Theorem queued_head_shows_first_queued (df : list tabular) :
  (length (queued_head df) ≤ 200)%nat
  ∧ Forall (fun t => df_status t = Some "queued") (queued_head df)
  ∧ queued_head df `sublist_of` df
  ∧ ((length (filter (fun t => py_eq (df_status t) "queued" = true) df) ≤ 200)%nat →
     ∀ t, t ∈ df → df_status t = Some "queued" → t ∈ queued_head df).
Proof.
  unfold queued_head. split; [rewrite length_take; lia|]. split; [|split].
  - apply Forall_forall. intros t Hin.
    apply elem_of_take in Hin as (i & Hi & _).
    apply list_elem_of_lookup_2 in Hi.
    apply list_elem_of_filter in Hi as [Hq _]. by apply py_eq_true.
  - etransitivity; [apply sublist_take | apply sublist_filter].
  - intros Hlen t Hin Hq. rewrite take_ge by done.
    apply list_elem_of_filter. split; [by apply py_eq_true | done].
Qed.

(** ** [process_repo] and [main]: arguments, artifacts, requests *)

Lemma split_on_length (c : ascii) (s : string) :
  length (split_on c s) = S (count_char c s).
Proof.
  induction s as [|c' s IH]; simpl; [done|].
  destruct (Ascii.eqb c' c); simpl; [by rewrite IH|].
  destruct (split_on c s) as [|piece pieces]; simpl in *; [done | lia].
Qed.

Lemma split_on_no_sep (c : ascii) (s : string) :
  count_char c s = 0%nat → split_on c s = [s].
Proof.
  induction s as [|c' s IH]; simpl; [done|].
  destruct (Ascii.eqb c' c); [done|]. simpl. intros H. by rewrite IH.
Qed.

Lemma split_on_join (c : ascii) (a b : string) :
  count_char c a = 0%nat →
  split_on c (a +:+ String c b) = a :: split_on c b.
Proof.
  induction a as [|c' a IH]; simpl.
  - intros _. by rewrite Ascii.eqb_refl.
  - destruct (Ascii.eqb c' c); [done|]. simpl. intros H. by rewrite IH.
Qed.

Lemma count_char_app (c : ascii) (a b : string) :
  count_char c (a +:+ b) = (count_char c a + count_char c b)%nat.
Proof. induction a as [|c' a IH]; simpl; [done|]. rewrite IH. lia. Qed.

Lemma process_repo_split_failure (E : env) (fuel : nat) (owner_repo : string)
    (per_page max_pages : Z) (out_prefix : string) (w : world) :
  count_char "/" owner_repo ≠ 1%nat →
  process_repo E fuel owner_repo per_page max_pages out_prefix w =
    Some (Raised ValueError, w).
Proof.
  intros H. unfold process_repo.
  pose proof (split_on_length "/" owner_repo) as Hlen.
  destruct (split_on "/" owner_repo) as [|a [|b [|c l]]]; simpl in Hlen; try done.
  lia.
Qed.

(** X15. [process_repo] takes its argument apart at the slashes and needs
    exactly two pieces: with no slash or more than one it raises
    [ValueError] before any request is sent or any file written, for every
    provider and every setting of the other arguments. *)
Theorem process_repo_bad_owner_repo (E : env) (fuel : nat) (owner_repo : string)
    (per_page max_pages : Z) (out_prefix : string) (w : world) :
  count_char "/" owner_repo ≠ 1%nat →
  ∃ w', process_repo E fuel owner_repo per_page max_pages out_prefix w =
          Some (Raised ValueError, w')
        ∧ trace w' = trace w ∧ files w' = files w ∧ served w' = served w.
Proof.
  intros H. exists w. by rewrite process_repo_split_failure.
Qed.

Lemma process_repo_bad_owner_repo_witness :
  ∃ w', process_repo (scripted [] (Ok error_500)) 1 "octo/cat/repo" 100 3 "report" w0
        = Some (Raised ValueError, w')
        ∧ trace w' = trace w0 ∧ files w' = files w0 ∧ served w' = served w0.
Proof.
  apply process_repo_bad_owner_repo. vm_compute. discriminate.
Defined.

(** X16. [main] joins owner and repository with a slash and [process_repo]
    splits at slashes: the two pieces come back as given exactly when
    neither contains a slash; when one does, the process ends with status 1
    without a request or a file. *)
Theorem main_owner_repo_round_trip (E : env) (fuel : nat)
    (owner repo out_prefix : string) (per_page max_pages : Z) (w : world) :
  (count_char "/" owner = 0%nat → count_char "/" repo = 0%nat →
     split_on "/" (owner +:+ "/" +:+ repo) = [owner; repo])
  ∧ ((count_char "/" owner + count_char "/" repo)%nat ≠ 0%nat →
     main E fuel owner repo out_prefix per_page max_pages w = Some (1, w)).
Proof.
  split.
  - intros Ho Hr. change ("/" +:+ repo) with (String "/" repo).
    rewrite split_on_join by done. by rewrite split_on_no_sep.
  - intros H. unfold main. rewrite process_repo_split_failure; [done|].
    rewrite !count_char_app. simpl. lia.
Qed.

Lemma main_owner_repo_round_trip_witness :
  split_on "/" ("octo" +:+ "/" +:+ "repo") = ["octo"; "repo"]
  ∧ main (scripted [] (Ok error_500)) 1 "octo/cat" "repo" "report" 100 3 w0
    = Some (1, w0).
Proof.
  split.
  - apply (proj1 (main_owner_repo_round_trip (scripted [] (Ok error_500)) 1
                    "octo" "repo" "report" 100 3 w0)); reflexivity.
  - apply (proj2 (main_owner_repo_round_trip (scripted [] (Ok error_500)) 1
                    "octo/cat" "repo" "report" 100 3 w0)).
    vm_compute. discriminate.
Defined.

(** X17. A listing without runs is not a clean run of the process: the JSON
    and CSV files are written, both empty, then the summary raises
    [KeyError] on the DataFrame without columns; no HTML file is written and
    the exit status is 1. *)
Theorem main_no_runs (E : env) (fuel : nat) (owner repo out_prefix : string)
    (per_page max_pages : Z) (w w1 : world) :
  split_on "/" (owner +:+ "/" +:+ repo) = [owner; repo] →
  fetch_runs_for_repo E fuel owner repo per_page max_pages w = Some (Ok [], w1) →
  process_repo E fuel (owner +:+ "/" +:+ repo) per_page max_pages out_prefix w =
    Some (Raised (KeyError "status"),
          wrote (CsvFile (out_prefix +:+ ".csv") [])
                (wrote (JsonFile (out_prefix +:+ ".json") []) w1))
  ∧ main E fuel owner repo out_prefix per_page max_pages w =
      Some (1, wrote (CsvFile (out_prefix +:+ ".csv") [])
                     (wrote (JsonFile (out_prefix +:+ ".json") []) w1)).
Proof.
  intros Hsplit Hruns.
  pose proof (process_repo_after_batch E fuel owner repo _ per_page max_pages
                out_prefix w w1 w1 [] [] Hsplit Hruns eq_refl) as Hproc.
  cbv zeta in Hproc. simpl in Hproc.
  split; [exact Hproc|]. unfold main. by rewrite Hproc.
Qed.

(** The provider answers the first listing request with an empty object. *)
Lemma main_no_runs_witness :
  process_repo (scripted [Ok (ok_200 EmptyObject)] (Ok error_500)) 1
               ("o" +:+ "/" +:+ "r") 100 3 "report" w0
  = Some (Raised (KeyError "status"),
          wrote (CsvFile ("report" +:+ ".csv") [])
            (wrote (JsonFile ("report" +:+ ".json") [])
               (requested (runs_request (scripted [Ok (ok_200 EmptyObject)]
                                                  (Ok error_500)) "o" "r" 100 1) w0)))
  ∧ main (scripted [Ok (ok_200 EmptyObject)] (Ok error_500)) 1 "o" "r" "report"
         100 3 w0
    = Some (1, wrote (CsvFile ("report" +:+ ".csv") [])
                 (wrote (JsonFile ("report" +:+ ".json") [])
                    (requested (runs_request (scripted [Ok (ok_200 EmptyObject)]
                                                       (Ok error_500)) "o" "r" 100 1) w0))).
Proof.
  apply (main_no_runs (scripted [Ok (ok_200 EmptyObject)] (Ok error_500)) 1
           "o" "r" "report" 100 3 w0); [reflexivity | vm_compute; reflexivity].
Defined.

Lemma finish_returns (r : response) (w : world) : ∃ o, finish r w = Some (o, w).
Proof.
  unfold finish, or_raise, ret, raise.
  destruct (is_success r); [destruct (json r)|]; eauto.
Qed.

Lemma get_json_no_backoff (E : env) (fuel : nat) (rq : request) (w : world) :
  no_backoff E → ∃ o, get_json E (S fuel) rq w = Some (o, requested rq w).
Proof.
  intros Hnb. destruct (server E (served w) rq) as [r|e] eqn:Hr.
  - rewrite (get_json_step _ _ _ _ _ Hr).
    destruct (Hnb _ _ _ Hr) as [Hrl|Hh].
    + rewrite Hrl. apply finish_returns.
    + destruct (rate_limited r); [|apply finish_returns].
      cbv zeta. rewrite Hh. apply finish_returns.
  - rewrite (get_json_transport _ _ _ _ _ Hr). eauto.
Qed.

Lemma fetch_jobs_for_run_no_backoff (E : env) (fuel : nat) (owner repo : string)
    (run_id : Z) (w : world) :
  no_backoff E →
  ∃ o, fetch_jobs_for_run E (S fuel) owner repo run_id w =
         Some (o, requested (jobs_request E owner repo run_id) w).
Proof.
  intros Hnb. unfold fetch_jobs_for_run, bind.
  destruct (get_json_no_backoff E fuel (jobs_request E owner repo run_id) w Hnb)
    as [[j|e] Hj]; rewrite Hj; [|eauto].
  destruct j as [b| |wr js]; simpl; unfold raise, ret; eauto.
Qed.

Lemma gather_jobs_no_backoff (E : env) (fuel : nat) (owner repo : string)
    (drs : list run) (w : world) :
  no_backoff E →
  ∃ res,
    gather (map (fun r => fetch_jobs_for_run E (S fuel) owner repo (id r)) drs) w
      = Some (Ok res, requested_jobs E owner repo drs w)
    ∧ length res = length drs.
Proof.
  intros Hnb. revert w. induction drs as [|r drs IH]; intros w.
  - by exists [].
  - cbn [map gather].
    destruct (fetch_jobs_for_run_no_backoff E fuel owner repo (id r) w Hnb) as [o Ho].
    rewrite Ho.
    destruct (IH (requested (jobs_request E owner repo (id r)) w)) as (res & Hg & Hlen).
    exists (o :: res). unfold bind. rewrite Hg. simpl. by rewrite Hlen.
Qed.

Lemma trace_requested_jobs (E : env) (owner repo : string) (drs : list run) (w : world) :
  trace (requested_jobs E owner repo drs w) =
    trace w ++ map (fun r => Requested (jobs_request E owner repo (id r))) drs
  ∧ served (requested_jobs E owner repo drs w) = (served w + length drs)%nat
  ∧ files (requested_jobs E owner repo drs w) = files w.
Proof.
  revert w. induction drs as [|r drs IH]; intros w; simpl.
  - rewrite app_nil_r. split; [done|]. split; [lia | done].
  - unfold requested_jobs in *. simpl.
    destruct (IH (requested (jobs_request E owner repo (id r)) w)) as (Ht & Hs & Hf).
    rewrite Ht, Hs, Hf. simpl. rewrite <- app_assoc. split; [done|]. split; [lia | done].
Qed.

(** X18. When no answer makes a call sleep, the enrichment asks the provider
    exactly once per run whose status is "queued" or "in_progress", in the
    order of the listing, and never for any other run; the process then runs
    to its end, whatever those requests return. *)
Theorem process_repo_job_requests (E : env) (fuel : nat)
    (owner repo owner_repo out_prefix : string) (per_page max_pages : Z)
    (w w1 : world) (runs : list run) :
  no_backoff E →
  split_on "/" owner_repo = [owner; repo] →
  fetch_runs_for_repo E (S fuel) owner repo per_page max_pages w = Some (Ok runs, w1) →
  ∃ o w',
    process_repo E (S fuel) owner_repo per_page max_pages out_prefix w = Some (o, w')
    ∧ trace w' =
        trace w1 ++ map (fun r => Requested (jobs_request E owner repo (id r)))
                        (filter (fun r => selected r = true) runs)
    ∧ served w' = (served w1 + length (filter (fun r => selected r = true) runs))%nat.
Proof.
  intros Hnb Hsplit Hruns.
  destruct (gather_jobs_no_backoff E fuel owner repo
              (filter (fun r => selected r = true) runs) w1 Hnb) as (res & Hg & _).
  pose proof (process_repo_after_batch E (S fuel) owner repo owner_repo per_page
                max_pages out_prefix w w1 _ runs res Hsplit Hruns Hg) as Hproc.
  cbv zeta in Hproc. rewrite Hproc.
  destruct (trace_requested_jobs E owner repo
              (filter (fun r => selected r = true) runs) w1) as (Ht & Hs & _).
  destruct (groupby_size _); eexists _, _; (split; [reflexivity|]); simpl; done.
Qed.

(** The listing of [page_one]: one job request, for the queued run 12. *)
Lemma process_repo_job_requests_witness :
  ∃ o w',
    process_repo listing_then_errors 1 "o/r" 100 3 "report" w0 = Some (o, w')
    ∧ trace w' =
        trace (requested (runs_request listing_then_errors "o" "r" 100 1) w0)
        ++ map (fun r => Requested (jobs_request listing_then_errors "o" "r" (id r)))
               (filter (fun r => selected r = true) page_one)
    ∧ served w' =
        (served (requested (runs_request listing_then_errors "o" "r" 100 1) w0)
         + length (filter (fun r => selected r = true) page_one))%nat.
Proof.
  apply (process_repo_job_requests listing_then_errors 0 "o" "r" "o/r" "report"
           100 3 w0).
  - intros n rq r Hr. left. unfold listing_then_errors, scripted in Hr. simpl in Hr.
    destruct n as [|n]; simpl in Hr; injection Hr as <-; reflexivity.
  - reflexivity.
  - vm_compute. reflexivity.
Defined.




(** ** The gate: progress *)

Lemma in_flight_lookup (s : gate_state) :
  (0 < in_flight s)%nat → ∃ j, calls s !! j = Some InFlight.
Proof.
  unfold in_flight. intros H.
  destruct (filter (fun c => c = InFlight) (calls s)) as [|c l] eqn:Hf;
    [simpl in H; lia|].
  assert (Hin : c ∈ filter (fun c => c = InFlight) (calls s))
    by (rewrite Hf; by left).
  apply list_elem_of_filter in Hin as [-> Hin].
  by apply list_elem_of_lookup in Hin.
Qed.

(** X20. The gate cannot deadlock: in every state the event loop can reach,
    as long as some call has not finished, some call can take its next
    step.  A call that waits while all ten permits are taken is waiting for
    a call in flight, whose response frees a permit. *)
Theorem gate_no_deadlock (sched : list action) (s : gate_state) :
  gate_run sched gate_init = Some s →
  (∃ i c, calls s !! i = Some c ∧ c ≠ Returned) →
  ∃ a s', a ≠ Spawn ∧ gate_do a s = Some s'.
Proof.
  intros Hrun (i & c & Hi & Hc).
  assert (Hacc : (permits s + in_flight s = SEMAPHORE_VALUE)%nat).
  { apply (gate_run_account sched gate_init); [done | reflexivity]. }
  unfold SEMAPHORE_VALUE in Hacc.
  destruct c; [| | |done].
  - destruct (permits s) as [|p] eqn:Hp.
    + destruct (in_flight_lookup s) as [j Hj]; [lia|].
      exists (Respond j false). eexists. split; [done|]. simpl. by rewrite Hj.
    + exists (Acquire i). eexists. split; [done|]. simpl. by rewrite Hi, Hp.
  - exists (Respond i false). eexists. split; [done|]. simpl. by rewrite Hi.
  - exists (Wake i). eexists. split; [done|]. simpl. by rewrite Hi.
Qed.

Lemma gate_no_deadlock_witness :
  ∃ s, gate_run busy_schedule gate_init = Some s
       ∧ ∃ a s', a ≠ Spawn ∧ gate_do a s = Some s'.
Proof.
  eexists. split; [vm_compute; reflexivity|].
  apply (gate_no_deadlock busy_schedule); [vm_compute; reflexivity|].
  exists 20%nat, Waiting. split; [reflexivity | discriminate].
Defined.

(** ** The rate-limit test of [get_json] *)

Lemma prefix_app (n h : string) : String.prefix n h = true ↔ ∃ b, h = n +:+ b.
Proof.
  revert n. induction h as [|c' h IH]; intros [|c n]; simpl.
  - split; [intros _; by exists "" | done].
  - split; [done | by intros [b [=]]].
  - split; [intros _; by exists (String c' h) | done].
  - destruct (Ascii.ascii_dec c c') as [<-|Hne].
    + rewrite IH. split; intros [b Hb]; exists b; [by rewrite Hb | by injection Hb].
    + split; [done|]. intros [b [= ? _]]. done.
Qed.

Lemma contains_app (n h : string) :
  contains n h = true ↔ ∃ a b, h = a +:+ n +:+ b.
Proof.
  induction h as [|c h IH]; cbn [contains].
  - rewrite orb_false_r, prefix_app. split.
    + intros [b Hb]. by exists "", b.
    + intros (a & b & Hab). destruct a; simpl in Hab; [by exists b | done].
  - rewrite orb_true_iff, prefix_app, IH. split.
    + intros [[b Hb]|(a & b & Hab)].
      * by exists "", b.
      * exists (String c a), b. simpl. by rewrite Hab.
    + intros (a & b & Hab). destruct a as [|c' a]; simpl in Hab.
      * left. by exists b.
      * injection Hab as -> ->. right. by exists a, b.
Qed.

Lemma lower_app (a b : string) : lower (a +:+ b) = lower a +:+ lower b.
Proof. induction a as [|c a IH]; simpl; [done | by rewrite IH]. Qed.

Lemma lower_app_inv (s x y : string) :
  lower s = x +:+ y → ∃ s1 s2, s = s1 +:+ s2 ∧ lower s1 = x ∧ lower s2 = y.
Proof.
  revert s. induction x as [|c x IH]; intros s; simpl.
  - intros H. by exists "", s.
  - destruct s as [|c' s]; simpl; [done|]. intros [= Hc Hs].
    destruct (IH s Hs) as (s1 & s2 & -> & <- & <-).
    exists (String c' s1), s2. simpl. by rewrite Hc.
Qed.

(** X22. The test of line 27 holds exactly for the answers with status 403
    whose body contains the words "rate limit" somewhere, in any mix of
    upper and lower case; no other status is ever taken for a rate limit,
    whatever its body says. *)
Theorem rate_limited_iff (r : response) :
  rate_limited r = true
  ↔ status_code r = 403
    ∧ ∃ before phrase after,
        text r = before +:+ phrase +:+ after ∧ lower phrase = "rate limit".
Proof.
  unfold rate_limited. rewrite andb_true_iff, Z.eqb_eq, contains_app.
  split; intros [Hc H]; (split; [done|]).
  - destruct H as (a & b & Hab).
    apply lower_app_inv in Hab as (s1 & s2 & Ht & Ha & Hb).
    apply lower_app_inv in Hb as (p & s3 & -> & Hp & Hs3).
    by exists s1, p, s3.
  - destruct H as (a & p & b & -> & Hp).
    exists (lower a), (lower b). by rewrite !lower_app, Hp.
Qed.

(** X23. After a rate-limit answer with reset time [reset_epoch], when the
    wait can be written for the message and the delay fits a float, the
    retry is not issued before five seconds past the reset time, and not
    sooner than five seconds after the answer, also when the reset time
    already lies in the past. *)
Theorem get_json_retry_not_before_reset (E : env) (fuel : nat) (rq : request)
    (w : world) (r : response) (reset : string) (reset_epoch : Z) :
  server E (served w) rq = Ok r →
  rate_limited r = true →
  headers_get (headers r) "X-RateLimit-Reset" = Some reset →
  reset ≠ "" →
  py_int E reset = Some reset_epoch →
  py_format_int E (reset_epoch - now w + 5) = true →
  Z.max 5 (reset_epoch - now w + 5) < FLOAT_OVERFLOW →
  ∃ w1, get_json E (S fuel) rq w = get_json E fuel rq w1
        ∧ reset_epoch + 5 ≤ now w1
        ∧ now w + 5 ≤ now w1
        ∧ served w1 = S (served w)
        ∧ sleeps_in (trace w1) = S (sleeps_in (trace w)).
Proof.
  intros Hr Hrl Hh Hne Hint Hfmt Hfl.
  exists (slept (Z.max 5 (reset_epoch - now w + 5)) (requested rq w)).
  split; [by apply (get_json_retry _ _ _ _ r reset)|].
  simpl. split; [lia|]. split; [lia|]. split; [done|].
  rewrite !sleeps_in_app. unfold sleeps_in at 2 3. simpl. lia.
Qed.

(** The reset time 900 is already past at second 1000: the retry still waits
    five seconds. *)
Lemma get_json_retry_not_before_reset_witness :
  ∃ w1, get_json (scripted [Ok (rate_limit_403 [("X-RateLimit-Reset", "900")])]
                           (Ok error_500)) 2 some_request w0
        = get_json (scripted [Ok (rate_limit_403 [("X-RateLimit-Reset", "900")])]
                             (Ok error_500)) 1 some_request w1
        ∧ 900 + 5 ≤ now w1
        ∧ now w0 + 5 ≤ now w1
        ∧ served w1 = S (served w0)
        ∧ sleeps_in (trace w1) = S (sleeps_in (trace w0)).
Proof.
  apply (get_json_retry_not_before_reset
           (scripted [Ok (rate_limit_403 [("X-RateLimit-Reset", "900")])]
                     (Ok error_500)) 1 some_request w0
           (rate_limit_403 [("X-RateLimit-Reset", "900")]) "900" 900);
    [reflexivity | reflexivity | reflexivity | discriminate | reflexivity
     | vm_compute; reflexivity | vm_compute; reflexivity].
Defined.
